(** * Matrices of algebraic integers for Coxeter groups

    A shallow embedding of [coxeter/matrix.py] (class [Matrix]: the matrix
    product, the identity test, and the builders of the Cartan matrix and of
    the reflection matrices of a Coxeter group), followed by the properties
    its description states about it.

    Python values are modelled as follows: an [int] is a [Z]; a list or a
    one-dimensional array is a [list]; a two-dimensional numpy array of
    objects is a list of rows; an exception is the [Raise] outcome of the
    [result] monad; a [for] loop over [range(n)] is [for_range n]. *)

From stdpp Require Import base list.
From Stdlib Require Import ZArith Lia.

(** ** Exceptions and the error monad *)

Inductive exn := TypeError | ValueError | IndexError | AttributeError.

Inductive result (A : Type) := Ok (a : A) | Raise (e : exn).
Arguments Ok {A} a.
Arguments Raise {A} e.

#[global] Instance result_bind : MBind result :=
  λ A B f r, match r with Ok a => f a | Raise e => Raise e end.
#[global] Instance result_ret : MRet result := λ A a, Ok a.

(** [for x in xs: s = body(x, s)], stopping at the first exception. *)
Fixpoint for_each {S : Type} (xs : list nat) (body : nat → S → result S) (s : S)
  : result S :=
  match xs with
  | [] => Ok s
  | x :: xs' => s' ← body x s; for_each xs' body s'
  end.

Definition for_range {S : Type} (n : nat) (body : nat → S → result S) (s : S)
  : result S :=
  for_each (seq 0 n) body s.

(** [[f(x) for x in xs]], stopping at the first exception. *)
Fixpoint map_result {A B : Type} (f : A → result B) (xs : list A) : result (list B) :=
  match xs with
  | [] => Ok []
  | x :: xs' => y ← f x; ys ← map_result f xs'; Ok (y :: ys)
  end.

(** ** Integer helpers ([integers.py]) *)

(** Modelled from the spec: [integers.lcm], which [matrix.py] imports, the
    integer least common multiple, commutative and associative.  It is taken
    to be [Z.lcm], for which the least common multiple of anything with 0
    is 0. *)
Definition lcm (a b : Z) : Z := Z.lcm a b.

(** ** Integer polynomials ([polynomial.py])

    Modelled from the spec: class [IntPolynomial], which [matrix.py]
    imports.  A polynomial is its coefficient list, constant term first,
    without trailing zeros; the zero polynomial is the empty list. *)

Abbreviation poly := (list Z).

Fixpoint trim (c : list Z) : poly :=
  match c with
  | [] => []
  | a :: c' =>
      match trim c' with
      | [] => if (a =? 0)%Z then [] else [a]
      | q => a :: q
      end
  end.

(** [IntPolynomial.convert]: an integer becomes a constant polynomial, a
    coefficient vector becomes the polynomial with these coefficients. *)
Definition convert (v : Z + list Z) : poly :=
  match v with
  | inl n => trim [n]
  | inr c => trim c
  end.

Fixpoint add_coeffs (c d : list Z) : list Z :=
  match c, d with
  | [], _ => d
  | _, [] => c
  | a :: c', b :: d' => (a + b)%Z :: add_coeffs c' d'
  end.

Definition scale (k : Z) (c : list Z) : list Z := map (Z.mul k) c.

Fixpoint mul_coeffs (c d : list Z) : list Z :=
  match c with
  | [] => []
  | a :: c' => add_coeffs (scale a d) (0%Z :: mul_coeffs c' d)
  end.

Definition padd (f g : poly) : poly := trim (add_coeffs f g).
Definition pneg (f : poly) : poly := trim (scale (-1) f).
Definition pmul (f g : poly) : poly := trim (mul_coeffs f g).

(** Division with remainder by a monic polynomial [b], in Horner form:
    [a + x·c' = (x·q + k)·b + r] where [c' = q·b + r'] and
    [a + x·r' = k·b + r].  The leading term of [a + x·r' - k·b] vanishes
    because [b] is monic, and is dropped. *)
Fixpoint divmod_coeffs (c b : list Z) : list Z * list Z :=
  match c with
  | [] => ([], [])
  | a :: c' =>
      let (q, r) := divmod_coeffs c' b in
      let s := a :: r in
      if length s <? length b then (0%Z :: q, s)
      else
        let k := List.last s 0%Z in
        (k :: q, removelast (add_coeffs s (scale (- k) b)))
  end.

Definition pdiv (f g : poly) : poly := trim (fst (divmod_coeffs f g)).
Definition pmod (f g : poly) : poly := trim (snd (divmod_coeffs f g)).

(** [f(x) ↦ f(x^k)] *)
Fixpoint inflate (k : nat) (c : list Z) : list Z :=
  match c with
  | [] => []
  | a :: c' =>
      match c' with
      | [] => [a]
      | _ :: _ => a :: replicate (k - 1) 0%Z ++ inflate k c'
      end
  end.

(** The cyclotomic polynomial, one prime factor [q] of the index at a time,
    smallest first: [Φ_{nq}(x) = Φ_n(x^q) / Φ_n(x)] when [q] does not divide
    [n], and [Φ_{nq}(x) = Φ_n(x^q)] when it does. *)
Fixpoint cyclotomic_loop (fuel : nat) (n q : Z) (fresh : bool) (phi : poly) : poly :=
  match fuel with
  | O => phi
  | S fuel' =>
      if (n <=? 1)%Z then phi
      else if (n mod q =? 0)%Z then
        let phi_q := inflate (Z.to_nat q) phi in
        cyclotomic_loop fuel' (n / q) q false
          (if fresh then pdiv phi_q phi else trim phi_q)
      else cyclotomic_loop fuel' n (q + 1) true phi
  end.

(** Modelled from the spec: [IntPolynomial.cyclotomic(m)], the monic
    irreducible integer polynomial of degree φ(m) whose roots are the
    primitive m-th roots of unity.  The description defines it for an index
    [m ≥ 1] only; the model has no polynomial to return below 1 and reports
    [ValueError] there. *)
Definition cyclotomic (n : Z) : result poly :=
  if (n <? 1)%Z then Raise ValueError
  else Ok (cyclotomic_loop (Z.to_nat (2 * n)) n 2 true [-1; 1]%Z).

(** ** Algebraic integers ([algebraic_integers.py]) *)

Module aint.

(** Modelled from the spec: class [AlgebraicInteger], which [matrix.py]
    imports as [aint].  An element of the ring generated by a root of the
    monic polynomial [base] is the polynomial [p], reduced modulo [base];
    [p] is what [matrix.py] reads as [a.p]. *)
Record t := mk { base : poly; p : poly }.

(** [AlgebraicInteger(base, value)]: [value] is an integer or a
    coefficient vector. *)
Definition init (b : poly) (v : Z + list Z) : t :=
  {| base := b; p := pmod (convert v) b |}.

Definition neg (a : t) : t := init (base a) (inr (pneg (p a))).
Definition add (a c : t) : t := init (base a) (inr (padd (p a) (p c))).
Definition mul (a c : t) : t := init (base a) (inr (pmul (p a) (p c))).

(** [a == n] for an integer [n] *)
Definition eq_int (a : t) (n : Z) : bool := bool_decide (p a = convert (inl n)).

End aint.

(** [f == n] for a polynomial [f] and an integer [n] *)
Definition poly_eq_int (f : poly) (n : Z) : bool := bool_decide (f = convert (inl n)).

(** ** Python objects held in arrays *)

(** The cells of an object array: the [int] zeros that [np.zeros_like]
    leaves behind, and algebraic integers. *)
Inductive pyobj :=
  | PyInt (n : Z)
  | PyAint (a : aint.t).

Definition isinstance_aint (x : pyobj) : bool :=
  match x with PyAint _ => true | PyInt _ => false end.

(** [x.p] *)
Definition getattr_p (x : pyobj) : result poly :=
  match x with
  | PyAint a => Ok (aint.p a)
  | PyInt _ => Raise AttributeError
  end.

(** [x != n] for an integer [n] *)
Definition py_ne_int (x : pyobj) (n : Z) : bool :=
  match x with
  | PyAint a => negb (aint.eq_int a n)
  | PyInt k => negb (k =? n)%Z
  end.

(** [-x] *)
Definition py_neg (x : pyobj) : pyobj :=
  match x with
  | PyAint a => PyAint (aint.neg a)
  | PyInt k => PyInt (- k)
  end.

(** [x * y] and [x + y].  The element interface promises arithmetic between
    two algebraic integers; a mixed operation is reported as [TypeError]. *)
Definition py_mul (x y : pyobj) : result pyobj :=
  match x, y with
  | PyAint a, PyAint c => Ok (PyAint (aint.mul a c))
  | PyInt k, PyInt n => Ok (PyInt (k * n))
  | _, _ => Raise TypeError
  end.

Definition py_add (x y : pyobj) : result pyobj :=
  match x, y with
  | PyAint a, PyAint c => Ok (PyAint (aint.add a c))
  | PyInt k, PyInt n => Ok (PyInt (k + n))
  | _, _ => Raise TypeError
  end.

(** ** Lists and arrays *)

(** [l[i]] for [i] in a [range] *)
Definition getitem {A : Type} (l : list A) (i : nat) : result A :=
  match l !! i with
  | Some x => Ok x
  | None => Raise IndexError
  end.

(** [g[i][j]] *)
Definition getitem2 {A : Type} (g : list (list A)) (i j : nat) : result A :=
  row ← getitem g i; getitem row j.

(** [l[k]] for any integer [k]: a negative index counts from the end. *)
Definition getitem_int {A : Type} (l : list A) (k : Z) : result A :=
  let n := Z.of_nat (length l) in
  if bool_decide (0 ≤ k)%Z then getitem l (Z.to_nat k)
  else if bool_decide (- n ≤ k)%Z then getitem l (Z.to_nat (k + n))
  else Raise IndexError.

(** [l[i] = v] for [i] in a [range] *)
Definition setitem {A : Type} (l : list A) (i : nat) (v : A) : result (list A) :=
  if bool_decide (i < length l) then Ok (<[i := v]> l) else Raise IndexError.

(** [g[i][j] = v] *)
Definition setitem2 {A : Type} (g : list (list A)) (i j : nat) (v : A)
  : result (list (list A)) :=
  row ← getitem g i; row' ← setitem row j v; setitem g i row'.

(** [z[i] = v] on a Python list with an integer index: a negative index
    counts from the end. *)
Definition list_setitem {A : Type} (z : list A) (i : Z) (v : A) : result (list A) :=
  let n := Z.of_nat (length z) in
  if bool_decide (0 ≤ i < n)%Z then Ok (<[Z.to_nat i := v]> z)
  else if bool_decide (- n ≤ i < 0)%Z then Ok (<[Z.to_nat (i + n) := v]> z)
  else Raise IndexError.

Abbreviation grid := (list (list pyobj)).

Definition ncols {A : Type} (g : list (list A)) : nat :=
  match g with
  | [] => 0
  | row :: _ => length row
  end.

(** Rows of one length. *)
Definition rectangular {A : Type} (g : list (list A)) : bool :=
  forallb (λ row, length row =? ncols g) g.

(** [np.zeros_like(g).astype(object)]: an array of the shape of [g] filled
    with the integer 0; rows of unequal lengths have no array shape. *)
Definition zeros_like {A : Type} (g : list (list A)) : result grid :=
  if rectangular g then Ok (map (map (λ _, PyInt 0)) g) else Raise ValueError.

(** The sum of products of numpy's object [dot]: the first product starts
    the sum, the others are added to it from left to right. *)
Fixpoint dot_acc (acc : pyobj) (u v : list pyobj) : result pyobj :=
  match u, v with
  | x :: u', y :: v' => t ← py_mul x y; acc' ← py_add acc t; dot_acc acc' u' v'
  | _, _ => Ok acc
  end.

Definition vdot (u v : list pyobj) : result pyobj :=
  match u, v with
  | x :: u', y :: v' => t ← py_mul x y; dot_acc t u' v'
  | _, _ => Ok (PyInt 0)
  end.

Definition column (g : grid) (j : nat) : list pyobj :=
  omap (λ row, row !! j) g.

(** [np.dot(a, b)] for two-dimensional [a] and [b]: the shapes must be
    aligned (the columns of [a] against the rows of [b]). *)
Definition np_dot (a b : grid) : result grid :=
  if bool_decide (ncols a = length b) then
    map_result (λ row, map_result (λ j, vdot row (column b j)) (seq 0 (ncols b))) a
  else Raise ValueError.

(** [np.dot(a, v)] for a two-dimensional [a] and a one-dimensional [v] *)
Definition np_dot_vec (a : grid) (v : list pyobj) : result (list pyobj) :=
  if bool_decide (ncols a = length v) then map_result (λ row, vdot row v) a
  else Raise ValueError.

(** [np.dot(a, bs)] for a two-dimensional [a] and a three-dimensional [bs],
    given as the list of its two-dimensional blocks, all of one shape: the
    sum runs over the last axis of [a] and the last but one of [bs], which
    must have the same length, and the cell [(i, k, m)] of the result is
    row [i] of [a] against column [m] of block [k]. *)
Definition np_dot_blocks (a : grid) (bs : list grid) : result (list grid) :=
  let p := match bs with [] => 0 | b :: _ => length b end in
  let q := match bs with [] => 0 | b :: _ => ncols b end in
  if forallb (λ b, rectangular b && (length b =? p) && (ncols b =? q)) bs then
    if bool_decide (ncols a = p) then
      map_result (λ row,
        map_result (λ b,
          map_result (λ m, vdot row (column b m)) (seq 0 q)) bs) a
    else Raise ValueError
  else Raise ValueError.

(** The items of a sequence operand: an object, or a nested sequence (a
    list or an array) of one or of two dimensions. *)
Inductive item :=
  | Obj (x : pyobj)
  | Row (r : list pyobj)
  | Block (g : grid).

Definition isinstance_aint_item (x : item) : bool :=
  match x with
  | Obj x => isinstance_aint x
  | Row _ | Block _ => false
  end.

(** The array that numpy makes of a sequence: of one dimension when the
    items are objects, of two when they are rows, of three when they are
    blocks. *)
Definition as_objects (l : list item) : option (list pyobj) :=
  mapM (λ x, match x with Obj x => Some x | _ => None end) l.

Definition as_rows (l : list item) : option grid :=
  mapM (λ x, match x with Row r => Some r | _ => None end) l.

Definition as_blocks (l : list item) : option (list grid) :=
  mapM (λ x, match x with Block g => Some g | _ => None end) l.

(** What [np.dot] returns: an array of one, two or three dimensions. *)
Inductive ndarray :=
  | Array1 (v : list pyobj)
  | Array2 (g : grid)
  | Array3 (bs : list grid).

(** [np.dot(a, other)] for a two-dimensional [a] and a sequence [other];
    items that do not fit one shape make no array to multiply by. *)
Definition np_dot_seq (a : grid) (other : list item) : result ndarray :=
  match as_objects other, as_rows other, as_blocks other with
  | Some v, _, _ => v' ← np_dot_vec a v; Ok (Array1 v')
  | None, Some b, _ =>
      if rectangular b then g ← np_dot a b; Ok (Array2 g) else Raise ValueError
  | None, None, Some bs => g ← np_dot_blocks a bs; Ok (Array3 g)
  | None, None, None => Raise ValueError
  end.

(** ** Class [Matrix] *)

Module Matrix.

Record t := mk { base : poly; M : grid; dim : nat }.

Definition __init__ (base : poly) (mat : grid) : t :=
  {| base := base; M := mat; dim := length mat |}.

(** The right operand of [*]: another matrix, or a sequence of objects. *)
Inductive operand :=
  | OMatrix (other : t)
  | OSeq (other : list item).

(** What [*] returns: a [Matrix], or the array that [np.dot] returned. *)
Inductive product :=
  | PMatrix (m : t)
  | PArray (a : ndarray).

(** [self[items]] *)
Definition __getitem__ (self : t) (items : Z) : result (list pyobj) :=
  getitem_int (M self) items.

(** [np.dot(a, x)] for an object [x] that is no array, which numpy takes
    for a scalar: every cell of [a] is multiplied by [x].  An array
    without cells comes back empty (an array without rows has one
    dimension); multiplying an algebraic integer by a [Matrix] is outside
    the element interface. *)
Definition np_dot_scalar (a : grid) : result product :=
  match a with
  | [] => Ok (PArray (Array1 []))
  | _ :: _ => if bool_decide (concat a = []) then Ok (PArray (Array2 a)) else Raise TypeError
  end.

Definition __mul__ (self : t) (other : operand) : result product :=
  match other with
  | OMatrix o =>
      if bool_decide (base self = base o) then
        match M self, M o with
        | [], [] =>
            (* two arrays without rows have one dimension, their [np.dot]
               is a scalar, and [len] of it raises in the constructor *)
            Raise TypeError
        | _, _ => g ← np_dot (M self) (M o); Ok (PMatrix (__init__ (base self) g))
        end
      else
        (* the [else] branch with a Matrix: iterating over it goes through
           [__getitem__] and yields its rows, none of which is an
           algebraic integer, and [len(other)] raises, a Matrix having no
           [__len__]; the iteration over a Matrix without rows is empty *)
        match M o with
        | _ :: _ => Raise TypeError
        | [] => np_dot_scalar (M self)
        end
  | OSeq l =>
      if negb (forallb isinstance_aint_item l) && bool_decide (length l = dim self)
      then Raise TypeError
      else a ← np_dot_seq (M self) l; Ok (PArray a)
  end.

(** The inner loop of [is_identity]: [false] stands for [return False]. *)
Fixpoint lower_zero (g : grid) (i : nat) (js : list nat) : result bool :=
  match js with
  | [] => Ok true
  | j :: js' =>
      a ← getitem2 g i j;
      if py_ne_int a 0 then Ok false else lower_zero g i js'
  end.

Fixpoint is_identity_rows (g : grid) (rows : list nat) : result bool :=
  match rows with
  | [] => Ok true
  | i :: rows' =>
      a ← getitem2 g i i;
      ap ← getattr_p a;
      if negb (poly_eq_int ap 1) then Ok false
      else
        z ← lower_zero g i (seq 0 i);
        if (z : bool) then is_identity_rows g rows' else Ok false
  end.

Definition is_identity (self : t) : result bool :=
  is_identity_rows (M self) (seq 0 (dim self)).

(** The first loop of [cartan_matrix]: the index of the cyclotomic field. *)
Definition cartan_index (M : list (list Z)) : result Z :=
  let dim := length M in
  for_range dim (λ i (m : Z),
    for_range i (λ j (m : Z),
      Mij ← getitem2 M i j;
      Ok (lcm m (2 * Mij))) m) 2%Z.

Definition cartan_matrix (sym_matrix : list (list Z)) : result t :=
  let M := sym_matrix in
  let dim := length M in
  m ← cartan_index M;
  b ← cyclotomic m;
  C ← zeros_like M;
  C ← for_range dim (λ i (C : grid),
        setitem2 C i i (PyAint (aint.init b (inl 2%Z)))) C;
  C ← for_range dim (λ i (C : grid),
        for_range i (λ j (C : grid),
          let z := replicate (Z.to_nat m) 0%Z in
          Mij ← getitem2 M i j;
          let mij2 := (2 * Mij)%Z in
          if (0 <? mij2)%Z then
            z ← list_setitem z (m / mij2) (-1)%Z;
            z ← list_setitem z (m - m / mij2) (-1)%Z;
            let zeta := PyAint (aint.init b (inr z)) in
            C ← setitem2 C i j zeta;
            setitem2 C j i zeta
          else
            let v := PyAint (aint.init b (inl (-2)%Z)) in
            C ← setitem2 C i j v;
            setitem2 C j i v) C) C;
  Ok (__init__ b C).

Definition reflection_matrix (C : t) (k : Z) : result t :=
  let dim := dim C in
  R ← zeros_like (M C);
  let b := base C in
  R ← for_range dim (λ j (R : grid),
        if bool_decide (Z.of_nat j = k) then
          for_range dim (λ i (R : grid),
            if bool_decide (Z.of_nat i = k) then
              setitem2 R i j (PyAint (aint.init b (inl (-1)%Z)))
            else
              setitem2 R i j (PyAint (aint.init b (inl 0%Z)))) R
        else
          for_range dim (λ i (R : grid),
            if bool_decide (i = j) then
              setitem2 R i j (PyAint (aint.init b (inl 1%Z)))
            else if bool_decide (Z.of_nat i = k) then
              Ck ← __getitem__ C k;
              Ckj ← getitem Ck j;
              setitem2 R i j (py_neg Ckj)
            else
              setitem2 R i j (PyAint (aint.init b (inl 0%Z)))) R) R;
  Ok (__init__ b R).

End Matrix.

(** * Vocabulary of the statements *)

(** The cell [(i, j)] of a list of rows, when there is one. *)
Definition cell {A : Type} (g : list (list A)) (i j : nat) : option A :=
  g !! i ≫= λ row, row !! j.

(** [n] rows of [n] cells. *)
Definition square {A : Type} (n : nat) (g : list (list A)) : Prop :=
  map length g = replicate n n.

(** A [Matrix] object of dimension [dim] built over a square array. *)
Definition square_matrix (A : Matrix.t) : Prop :=
  square (Matrix.dim A) (Matrix.M A).

(** The array of [n] rows and [n] columns whose cell [(i, j)] is [f i j]. *)
Definition grid_of {A : Type} (n : nat) (f : nat → nat → A) : list (list A) :=
  map (λ i, map (λ j, f i j) (seq 0 n)) (seq 0 n).

(** The identity matrix over the base [b]: the lifted 1 on the diagonal, the
    lifted 0 elsewhere. *)
Definition identity_grid (b : poly) (n : nat) : grid :=
  grid_of n (λ i j, PyAint (aint.init b (inl (if bool_decide (i = j) then 1 else 0)%Z))).

(** Every cell holds an algebraic integer, as the docstring of [Matrix]
    asks. *)
Definition aint_cells (g : grid) : bool := forallb (forallb isinstance_aint) g.

(** The algebraic integer in a cell, 0 standing for anything else. *)
Definition cell_aint (g : grid) (i j : nat) : aint.t :=
  match cell g i j with
  | Some (PyAint a) => a
  | _ => aint.init [] (inl 0%Z)
  end.

(** The degree of a nonzero polynomial. *)
Definition degree (f : poly) : nat := length f - 1.

(** Monic, of degree at least 1. *)
Definition monic_nonconstant (f : poly) : Prop :=
  2 ≤ length f ∧ List.last f 0%Z = 1%Z.

(** Euler's totient. *)
Definition totient (n : nat) : nat :=
  length (filter (λ k, Nat.gcd k n = 1) (seq 1 n)).

(** An algebraic integer over the base [b] in reduced form: its polynomial
    has no trailing zero and a degree below that of [b]. *)
Definition reduced (b : poly) (a : aint.t) : Prop :=
  aint.base a = b ∧ trim (aint.p a) = aint.p a ∧ length (aint.p a) < length b.

(** The sum of the products [f 0 · g 0 + f 1 · g 1 + ... + f (n-1) · g (n-1)]
    of algebraic integers, added from left to right: the cell of the
    standard matrix product for a row [f] and a column [g]. *)
Definition sum_of_products (f g : nat → aint.t) (n : nat) : aint.t :=
  foldl (λ acc l, aint.add acc (aint.mul (f l) (g l)))
        (aint.mul (f 0) (g 0)) (seq 1 (n - 1)).

(** The standard product of two square arrays of algebraic integers of
    dimension [n]: the cell [(i, j)] is the sum of the products of row [i]
    of the first by column [j] of the second. *)
Definition standard_product (n : nat) (a c : grid) : grid :=
  grid_of n (λ i j,
    PyAint (sum_of_products (λ l, cell_aint a i l) (λ l, cell_aint c l j) n)).

(** A sequence without two-dimensional items. *)
Definition no_block (l : list item) : bool :=
  forallb (λ x, match x with Block _ => false | _ => true end) l.

(** The diagonal cell [i] passes the first test of [is_identity]: its
    polynomial [p] compares equal to 1. *)
Definition diagonal_is_one (g : grid) (i : nat) : Prop :=
  ∃ a, cell g i i = Some (PyAint a) ∧ poly_eq_int (aint.p a) 1 = true.

(** The cell [(i, j)] passes the second test of [is_identity]: it does not
    compare different from 0. *)
Definition cell_is_zero (g : grid) (i j : nat) : Prop :=
  ∃ x, cell g i j = Some x ∧ py_ne_int x 0 = false.

(** The cell [(i, j)] compares different from 0. *)
Definition cell_is_nonzero (g : grid) (i j : nat) : Prop :=
  ∃ x, cell g i j = Some x ∧ py_ne_int x 0 = true.

(** A valid Coxeter matrix: square and symmetric, with 1 on the diagonal
    and, off the diagonal, 0 (for an infinite order) or an order of at
    least 2. *)
Definition coxeter_entry (M : list (list Z)) (i j : nat) : bool :=
  match cell M i j, cell M j i with
  | Some x, Some y =>
      (x =? y)%Z && (if i =? j then (x =? 1)%Z else (x =? 0)%Z || (2 <=? x)%Z)
  | _, _ => false
  end.

Definition coxeter_matrix (M : list (list Z)) : bool :=
  let n := length M in
  forallb (λ row, length row =? n) M
  && forallb (λ i, forallb (λ j, coxeter_entry M i j) (seq 0 n)) (seq 0 n).

(** A Coxeter matrix without infinite orders: every entry is positive. *)
Definition coxeter_finite (M : list (list Z)) : bool :=
  forallb (forallb (λ x, 0 <? x)%Z) M.

(** The value that [cartan_matrix] computes for a pair of generators whose
    Coxeter entry is [Mij], in the field of index [m] and base [b]. *)
Definition cartan_offdiag (b : poly) (m Mij : Z) : result pyobj :=
  let z := replicate (Z.to_nat m) 0%Z in
  let mij2 := (2 * Mij)%Z in
  if (0 <? mij2)%Z then
    z ← list_setitem z (m / mij2) (-1)%Z;
    z ← list_setitem z (m - m / mij2) (-1)%Z;
    Ok (PyAint (aint.init b (inr z)))
  else Ok (PyAint (aint.init b (inl (-2)%Z))).

(** The array after the pairs below row [i], and the first [j] pairs of row
    [i], have been stored. *)
Definition cartan_pairs (M : list (list Z)) (b : poly) (m : Z) (C : grid)
    (before : nat → nat → Prop) : Prop :=
  ∀ a c, c < a → before a c →
    ∃ Mac v, cell M a c = Some Mac
      ∧ cartan_offdiag b m Mac = Ok v
      ∧ cell C a c = Some v ∧ cell C c a = Some v.

(** The cell [(i, j)] that [reflection_matrix(C, k)] assigns, branch by
    branch. *)
Definition reflection_cell (C : Matrix.t) (k : Z) (i j : nat) : option pyobj :=
  let b := Matrix.base C in
  if bool_decide (Z.of_nat j = k) then
    if bool_decide (Z.of_nat i = k) then Some (PyAint (aint.init b (inl (-1)%Z)))
    else Some (PyAint (aint.init b (inl 0%Z)))
  else if bool_decide (i = j) then Some (PyAint (aint.init b (inl 1%Z)))
  else if bool_decide (Z.of_nat i = k) then py_neg <$> cell (Matrix.M C) i j
  else Some (PyAint (aint.init b (inl 0%Z))).

(** The cell [(i, j)] of a reflection matrix as an algebraic integer, given
    the cells [c] of the Cartan matrix. *)
Definition reflection_aint (b : poly) (c : nat → nat → aint.t) (k i j : nat) : aint.t :=
  if bool_decide (j = k) then
    if bool_decide (i = k) then aint.init b (inl (-1)%Z) else aint.init b (inl 0%Z)
  else if bool_decide (i = j) then aint.init b (inl 1%Z)
  else if bool_decide (i = k) then aint.neg (c i j)
  else aint.init b (inl 0%Z).

(** The divisors of [n], the polynomial [x^n - 1] and the product of a list
    of polynomials, to check [cyclotomic] against
    [x^n - 1 = Π Φ_d(x)], [d] running over the divisors of [n]. *)
Definition divisors (n : nat) : list nat :=
  filter (λ d, (d | n)) (seq 1 n).

Definition x_pow_minus_one (n : nat) : poly :=
  (-1)%Z :: replicate (n - 1) 0%Z ++ [1%Z].

Definition cyclotomic_product (n : nat) : result poly :=
  fs ← map_result (λ d, cyclotomic (Z.of_nat d)) (divisors n);
  Ok (foldr pmul [1%Z] fs).

(** The Coxeter matrix of the (2, 3, 7) triangle group, and the Cartan
    matrix that [cartan_matrix] builds from it. *)
Definition coxeter_237 : list (list Z) := [[1; 3; 2]; [3; 1; 7]; [2; 7; 1]]%Z.

Definition cartan_237 : Matrix.t :=
  Eval vm_compute in
    match Matrix.cartan_matrix coxeter_237 with
    | Ok C => C
    | Raise _ => Matrix.__init__ [] []
    end.

(** The Coxeter matrix of two generators whose product has infinite order. *)
Definition coxeter_infinite : list (list Z) := [[1; 0]; [0; 1]]%Z.

(** Two Cartan matrices over the same field, the fourth cyclotomic one, of
    dimensions 2 and 3. *)
Definition coxeter_22 : list (list Z) := [[1; 2]; [2; 1]]%Z.
Definition coxeter_222 : list (list Z) := [[1; 2; 2]; [2; 1; 2]; [2; 2; 1]]%Z.

Definition cartan_22 : Matrix.t :=
  Eval vm_compute in
    match Matrix.cartan_matrix coxeter_22 with
    | Ok C => C
    | Raise _ => Matrix.__init__ [] []
    end.

Definition cartan_222 : Matrix.t :=
  Eval vm_compute in
    match Matrix.cartan_matrix coxeter_222 with
    | Ok C => C
    | Raise _ => Matrix.__init__ [] []
    end.

(** The invariant that the docstrings of [matrix.py] ask of a [Matrix]: a
    two-dimensional array of [dim] rows and [dim] columns whose entries are
    algebraic integers that all lie in the field of the base, here in
    reduced form, over a base of degree at least 1. *)
Definition reduced_cell (b : poly) (x : pyobj) : bool :=
  match x with
  | PyAint a =>
      bool_decide (aint.base a = b)
      && bool_decide (trim (aint.p a) = aint.p a)
      && (length (aint.p a) <? length b)
  | PyInt _ => false
  end.

Definition matrix_ok (A : Matrix.t) : bool :=
  (2 <=? length (Matrix.base A))
  && (length (Matrix.M A) =? Matrix.dim A)
  && forallb (λ row, (length row =? Matrix.dim A)
                     && forallb (reduced_cell (Matrix.base A)) row) (Matrix.M A).

(** The identity matrix of dimension [n] over the base [b]. *)
Definition identity_matrix (b : poly) (n : nat) : Matrix.t :=
  Matrix.__init__ b (identity_grid b n).

(** The product of a square array of algebraic integers of dimension [n] by
    a vector of [n] algebraic integers: the component [i] is the sum of the
    products of row [i] by the vector. *)
Definition matrix_vector (n : nat) (a : grid) (v : list aint.t) : list pyobj :=
  map (λ i, PyAint (sum_of_products (λ l, cell_aint a i l)
                      (λ l, nth l v (aint.init [] (inl 0%Z))) n))
      (seq 0 n).

(** The coefficient vector that [cartan_matrix] builds for a finite order:
    [-1] at the positions [p] and [q], 0 elsewhere, [m] coefficients. *)
Definition two_roots (m p q : nat) : list Z :=
  <[q := (-1)%Z]> (<[p := (-1)%Z]> (replicate m 0%Z)).

(** Two lists of rows hold the same entries strictly below the diagonal. *)
Definition same_lower_triangle (M M' : list (list Z)) : bool :=
  forallb (λ i, forallb (λ j, bool_decide (cell M i j = cell M' i j)) (seq 0 i))
          (seq 0 (length M)).

(** A Coxeter matrix with an infinite order written as -1, and its Cartan
    matrix over the second cyclotomic field. *)
Definition coxeter_free : list (list Z) := [[1; -1]; [-1; 1]]%Z.

Definition cartan_free : Matrix.t :=
  Eval vm_compute in
    match Matrix.cartan_matrix coxeter_free with
    | Ok C => C
    | Raise _ => Matrix.__init__ [] []
    end.

(** An argument of two rows and three columns, and what [cartan_matrix]
    makes of it. *)
Definition coxeter_wide : list (list Z) := [[1; 3; 0]; [3; 1; 0]]%Z.

Definition cartan_wide : Matrix.t :=
  Eval vm_compute in
    match Matrix.cartan_matrix coxeter_wide with
    | Ok C => C
    | Raise _ => Matrix.__init__ [] []
    end.

(** Row [i] passes both tests of [is_identity]: the polynomial of its
    diagonal cell compares equal to 1, and the cells to the left of the
    diagonal compare equal to 0. *)
Definition row_passes (g : grid) (i : nat) : Prop :=
  diagonal_is_one g i ∧ ∀ j, j < i → cell_is_zero g i j.

(** Row [i] fails one of the tests of [is_identity]: the polynomial of its
    diagonal cell differs from 1, or a cell to the left of the diagonal
    differs from 0, the cells before it being 0. *)
Definition row_fails (g : grid) (i : nat) : Prop :=
  (∃ a, cell g i i = Some (PyAint a) ∧ poly_eq_int (aint.p a) 1 = false)
  ∨ (diagonal_is_one g i
     ∧ ∃ j, j < i ∧ (∀ j', j' < j → cell_is_zero g i j') ∧ cell_is_nonzero g i j).

(** The lifted Kronecker symbol over the base [b]: the coordinate [i] of the
    basis vector [j]. *)
Definition kronecker (b : poly) (i j : nat) : aint.t :=
  aint.init b (inl (if bool_decide (i = j) then 1 else 0)%Z).

(** The matrix [C] with the cells of every row but row [k] overwritten by
    the integer 0. *)
Definition keep_row (C : Matrix.t) (k : nat) : Matrix.t :=
  Matrix.mk (Matrix.base C)
    (imap (λ i row, if bool_decide (i = k) then row else map (λ _, PyInt 0) row)
          (Matrix.M C))
    (Matrix.dim C).

(** * Properties *)

(** ** The error monad and the loops *)

Lemma bind_Ok {A B : Type} (r : result A) (f : A → result B) (y : B) :
  r ≫= f = Ok y ↔ ∃ x, r = Ok x ∧ f x = Ok y.
Proof.
  destruct r as [x|e]; simpl; split.
  - intros H. by exists x.
  - by intros (x' & [= <-] & H).
  - intros H. discriminate H.
  - by intros (x' & [=] & _).
Qed.

Lemma for_each_app {S : Type} (xs ys : list nat) (body : nat → S → result S) (s : S) :
  for_each (xs ++ ys) body s = for_each xs body s ≫= for_each ys body.
Proof.
  revert s. induction xs as [|x xs IH]; intros s; simpl; [done|].
  destruct (body x s) as [s'|e]; simpl; [apply IH | done].
Qed.

Lemma for_range_S {S : Type} (n : nat) (body : nat → S → result S) (s : S) :
  for_range (Datatypes.S n) body s = for_range n body s ≫= body n.
Proof.
  unfold for_range. rewrite seq_S, for_each_app. simpl.
  destruct (for_each (seq 0 n) body s) as [s'|e]; simpl; [|done].
  by destruct (body n s').
Qed.

(** The invariant rule of a loop that ran to its end. *)
Lemma for_range_inv {S : Type} (I : nat → S → Prop) (n : nat)
    (body : nat → S → result S) (s s' : S) :
  for_range n body s = Ok s' →
  I 0 s →
  (∀ i t t', i < n → I i t → body i t = Ok t' → I (Datatypes.S i) t') →
  I n s'.
Proof.
  revert s'. induction n as [|n IH]; intros s' Hrun H0 Hstep.
  - by injection Hrun as <-.
  - rewrite for_range_S in Hrun. apply bind_Ok in Hrun as (t & Hrun & Hbody).
    apply (Hstep n t s'); [lia| |done].
    apply IH; [done..|]. intros i u u' Hi. apply Hstep. lia.
Qed.

(** The invariant rule of a loop whose body cannot fail under the invariant. *)
Lemma for_range_total {S : Type} (I : nat → S → Prop) (n : nat)
    (body : nat → S → result S) (s : S) :
  I 0 s →
  (∀ i t, i < n → I i t → ∃ t', body i t = Ok t' ∧ I (Datatypes.S i) t') →
  ∃ s', for_range n body s = Ok s' ∧ I n s'.
Proof.
  induction n as [|n IH]; intros H0 Hstep.
  - by exists s.
  - destruct IH as (t & Hrun & Ht); [done| |].
    { intros i u Hi. apply Hstep. lia. }
    destruct (Hstep n t) as (t' & Hbody & Ht'); [lia|done|].
    exists t'. rewrite for_range_S, Hrun. done.
Qed.

Lemma map_result_seq {B : Type} (f : nat → result B) (g : nat → B) (s n : nat) :
  (∀ i, s ≤ i < s + n → f i = Ok (g i)) →
  map_result f (seq s n) = Ok (map g (seq s n)).
Proof.
  revert s. induction n as [|n IH]; intros s Hf; simpl; [done|].
  rewrite Hf by lia. simpl. rewrite IH by (intros; apply Hf; lia). done.
Qed.

Lemma map_result_map {A B D : Type} (f : B → result D) (h : A → B) (xs : list A) :
  map_result f (map h xs) = map_result (λ x, f (h x)) xs.
Proof. induction xs as [|x xs IH]; [done|]. simpl. by rewrite IH. Qed.

(** ** Cells of an array *)

Lemma getitem_Ok {A : Type} (l : list A) (i : nat) (x : A) :
  getitem l i = Ok x ↔ l !! i = Some x.
Proof. unfold getitem. destruct (l !! i); split; congruence. Qed.

Lemma getitem2_Ok {A : Type} (g : list (list A)) (i j : nat) (x : A) :
  getitem2 g i j = Ok x ↔ cell g i j = Some x.
Proof.
  unfold getitem2, cell, getitem.
  destruct (g !! i) as [row|]; simpl; [|split; congruence].
  destruct (row !! j); split; congruence.
Qed.

Lemma square_length {A : Type} (n : nat) (g : list (list A)) :
  square n g → length g = n.
Proof.
  intros H. apply (f_equal length) in H.
  by rewrite length_map, length_replicate in H.
Qed.

Lemma square_row {A : Type} (n : nat) (g : list (list A)) (i : nat) (row : list A) :
  square n g → g !! i = Some row → length row = n.
Proof.
  intros H Hrow. apply (f_equal (λ l, l !! i)) in H.
  rewrite list_lookup_fmap, Hrow in H. simpl in H. symmetry in H.
  apply lookup_replicate in H as [H _]. done.
Qed.

Lemma square_cell {A : Type} (n : nat) (g : list (list A)) (i j : nat) :
  square n g → i < n → j < n → is_Some (cell g i j).
Proof.
  intros H Hi Hj. unfold cell.
  destruct (lookup_lt_is_Some_2 g i) as [row Hrow].
  { by rewrite (square_length n g). }
  rewrite Hrow. simpl. apply lookup_lt_is_Some_2.
  by rewrite (square_row n g i row).
Qed.

Lemma square_ncols {A : Type} (n : nat) (g : list (list A)) :
  square n g → ncols g = n.
Proof.
  intros H. destruct g as [|row g]; simpl.
  - by destruct n.
  - by apply (square_row n (row :: g) 0 row).
Qed.

(** What an assignment [g[i][j] = v] that went through does. *)
Lemma setitem2_Ok {A : Type} (g g' : list (list A)) (i j : nat) (v : A) :
  setitem2 g i j v = Ok g' →
  map length g' = map length g
  ∧ cell g' i j = Some v
  ∧ ∀ a b, (a, b) ≠ (i, j) → cell g' a b = cell g a b.
Proof.
  unfold setitem2. intros H.
  apply bind_Ok in H as (row & Hrow & H). apply getitem_Ok in Hrow.
  apply bind_Ok in H as (row' & Hrow' & H).
  unfold setitem in Hrow', H. repeat case_bool_decide; try done.
  injection Hrow' as <-. injection H as <-.
  split; [|split].
  - rewrite list_fmap_insert, length_insert.
    apply list_insert_id. by rewrite list_lookup_fmap, Hrow.
  - unfold cell. rewrite list_lookup_insert_eq by done. simpl.
    by apply list_lookup_insert_eq.
  - intros a b Hab. unfold cell.
    destruct (decide (a = i)) as [->|Ha].
    + rewrite list_lookup_insert_eq, Hrow by done. simpl.
      apply list_lookup_insert_ne. congruence.
    + by rewrite list_lookup_insert_ne.
Qed.

(** An assignment to a cell that exists goes through. *)
Lemma setitem2_total {A : Type} (g : list (list A)) (i j : nat) (v : A) :
  is_Some (cell g i j) → ∃ g', setitem2 g i j v = Ok g'.
Proof.
  unfold cell, setitem2, getitem. intros [x Hx].
  destruct (g !! i) as [row|] eqn:Hrow; [|done]. simpl in *.
  unfold setitem. rewrite bool_decide_true by (by eapply lookup_lt_Some).
  simpl. rewrite bool_decide_true by (by eapply lookup_lt_Some). eauto.
Qed.

Lemma setitem2_square {A : Type} (n : nat) (g g' : list (list A)) (i j : nat) (v : A) :
  setitem2 g i j v = Ok g' → square n g → square n g'.
Proof. intros H Hsq. apply setitem2_Ok in H as (H & _). unfold square. by rewrite H. Qed.

Lemma zeros_like_Ok {A : Type} (g : list (list A)) (z : grid) :
  zeros_like g = Ok z → map length z = map length g.
Proof.
  unfold zeros_like. destruct (rectangular g); [|done]. intros [= <-].
  rewrite <- !list_fmap_compose. apply list_fmap_ext. intros _ row _. simpl.
  apply length_map.
Qed.

Lemma zeros_like_square {A : Type} (n : nat) (g : list (list A)) :
  square n g → ∃ z, zeros_like g = Ok z ∧ square n z.
Proof.
  intros Hsq. unfold zeros_like.
  assert (rectangular g = true) as ->.
  { apply forallb_forall. intros row Hin. apply Nat.eqb_eq.
    apply list_elem_of_In, list_elem_of_lookup in Hin as [i Hi].
    by rewrite (square_row n g i row), (square_ncols n g). }
  eexists. split; [done|]. unfold square.
  rewrite <- Hsq, <- !list_fmap_compose. apply list_fmap_ext. intros _ row _. simpl.
  apply length_map.
Qed.

(** Two arrays of one shape with the same cells are the same array. *)
Lemma grid_ext {A : Type} (g1 g2 : list (list A)) :
  map length g1 = map length g2 →
  (∀ i j, cell g1 i j = cell g2 i j) →
  g1 = g2.
Proof.
  intros Hshape Hcell. apply list_eq. intros i.
  pose proof (f_equal (λ l, l !! i) Hshape) as Hi. simpl in Hi.
  rewrite !list_lookup_fmap in Hi.
  destruct (g1 !! i) as [r1|] eqn:H1, (g2 !! i) as [r2|] eqn:H2; try done.
  f_equal. apply list_eq. intros j.
  specialize (Hcell i j). unfold cell in Hcell. by rewrite H1, H2 in Hcell.
Qed.

Lemma square_cell_None {A : Type} (n : nat) (g : list (list A)) (i j : nat) :
  square n g → ¬ (i < n ∧ j < n) → cell g i j = None.
Proof.
  intros Hsq Hij. unfold cell.
  destruct (g !! i) as [row|] eqn:Hrow; [|done]. simpl.
  apply lookup_ge_None. rewrite (square_row n g i row) by done.
  apply lookup_lt_Some in Hrow. rewrite (square_length n g) in Hrow by done. lia.
Qed.

Lemma square_ext {A : Type} (n : nat) (g1 g2 : list (list A)) :
  square n g1 → square n g2 →
  (∀ i j, i < n → j < n → cell g1 i j = cell g2 i j) →
  g1 = g2.
Proof.
  intros H1 H2 Hcell. apply grid_ext; [by rewrite H1, H2|].
  intros i j. destruct (decide (i < n ∧ j < n)) as [[Hi Hj]|Hij]; [by apply Hcell|].
  by rewrite !(square_cell_None n).
Qed.

Lemma grid_of_square {A : Type} (n : nat) (f : nat → nat → A) : square n (grid_of n f).
Proof.
  unfold square, grid_of. rewrite <- list_fmap_compose.
  apply list_eq. intros i. rewrite list_lookup_fmap.
  destruct (decide (i < n)) as [Hi|Hi].
  - rewrite lookup_seq_lt, lookup_replicate_2 by done. simpl.
    by rewrite length_map, length_seq.
  - rewrite lookup_seq_ge by lia. simpl. symmetry.
    apply lookup_replicate_None. lia.
Qed.

Lemma grid_of_cell {A : Type} (n : nat) (f : nat → nat → A) (i j : nat) :
  i < n → j < n → cell (grid_of n f) i j = Some (f i j).
Proof.
  intros Hi Hj. unfold cell, grid_of.
  rewrite list_lookup_fmap, lookup_seq_lt by done. simpl.
  by rewrite list_lookup_fmap, lookup_seq_lt.
Qed.

Lemma grid_of_ext {A : Type} (n : nat) (f g : nat → nat → A) :
  (∀ i j, i < n → j < n → f i j = g i j) → grid_of n f = grid_of n g.
Proof.
  intros Hfg. apply (square_ext n); [apply grid_of_square..|].
  intros i j Hi Hj. by rewrite !grid_of_cell, Hfg.
Qed.

(** A square array is the array of its cells. *)
Lemma square_grid_of {A : Type} (n : nat) (g : list (list A)) (f : nat → nat → A) :
  square n g →
  (∀ i j, i < n → j < n → cell g i j = Some (f i j)) →
  g = grid_of n f.
Proof.
  intros Hsq Hcells. apply (square_ext n); [done | apply grid_of_square|].
  intros i j Hi Hj. by rewrite Hcells, grid_of_cell.
Qed.

Lemma grid_of_ncols {A : Type} (n : nat) (f : nat → nat → A) : ncols (grid_of n f) = n.
Proof. apply square_ncols, grid_of_square. Qed.

Lemma grid_of_length {A : Type} (n : nat) (f : nat → nat → A) : length (grid_of n f) = n.
Proof. apply square_length, grid_of_square. Qed.

Lemma identity_grid_square (b : poly) (n : nat) : square n (identity_grid b n).
Proof. apply grid_of_square. Qed.

Lemma identity_grid_cell (b : poly) (n i j : nat) :
  i < n → j < n →
  cell (identity_grid b n) i j
  = Some (PyAint (aint.init b (inl (if bool_decide (i = j) then 1 else 0)%Z))).
Proof. intros Hi Hj. unfold identity_grid. by rewrite grid_of_cell. Qed.

Lemma aint_cells_cell (g : grid) (i j : nat) (x : pyobj) :
  aint_cells g = true → cell g i j = Some x → ∃ a, x = PyAint a.
Proof.
  unfold aint_cells, cell. intros Hall Hx.
  destruct (g !! i) as [row|] eqn:Hrow; [|done]. simpl in Hx.
  rewrite forallb_forall in Hall.
  specialize (Hall row). rewrite forallb_forall in Hall.
  assert (isinstance_aint x = true) as Hisa.
  { apply Hall; apply list_elem_of_In; by eapply list_elem_of_lookup_2. }
  destruct x; [done | eauto].
Qed.

Lemma square_aint_grid_of (n : nat) (g : grid) :
  square n g → aint_cells g = true →
  g = grid_of n (λ i j, PyAint (cell_aint g i j)).
Proof.
  intros Hsq Haint. apply square_grid_of; [done|]. intros i j Hi Hj.
  destruct (square_cell n g i j Hsq Hi Hj) as [x Hx].
  destruct (aint_cells_cell g i j x Haint Hx) as [a ->].
  unfold cell_aint. by rewrite Hx.
Qed.

(** ** Filling an array cell by cell *)

(** A loop that assigns the cells of column [j] from top to bottom. *)
Lemma fill_column (n j : nat) (body : nat → grid → result grid) (e : nat → pyobj)
    (R : grid) :
  square n R → j < n →
  (∀ i R', i < n → square n R' → body i R' = setitem2 R' i j (e i)) →
  ∃ R', for_range n body R = Ok R'
    ∧ square n R'
    ∧ (∀ i, i < n → cell R' i j = Some (e i))
    ∧ (∀ a b, b ≠ j → cell R' a b = cell R a b).
Proof.
  intros Hsq Hj Hbody.
  destruct (for_range_total
    (λ i R', square n R'
       ∧ (∀ a, a < i → cell R' a j = Some (e a))
       ∧ (∀ a b, b ≠ j → cell R' a b = cell R a b)) n body R)
    as (R' & Hrun & Hsq' & Hcol & Hrest).
  - split; [done|]. split; [intros; lia | done].
  - intros i T Hi (HsqT & Hcol & Hrest).
    destruct (setitem2_total T i j (e i)) as [T' HT']; [by apply (square_cell n)|].
    exists T'. rewrite Hbody by done. split; [done|].
    pose proof (setitem2_Ok _ _ _ _ _ HT') as (_ & Hset & Hother).
    split; [by eapply setitem2_square|]. split.
    + intros a Ha. destruct (decide (a = i)) as [->|Hne]; [done|].
      rewrite Hother by congruence. apply Hcol. lia.
    + intros a b Hb. rewrite Hother by congruence. by apply Hrest.
  - exists R'. eauto.
Qed.

(** A loop over the columns, each iteration filling its column. *)
Lemma fill_grid (n : nat) (body : nat → grid → result grid) (e : nat → nat → pyobj)
    (R : grid) :
  square n R →
  (∀ j R', j < n → square n R' →
     ∃ R'', body j R' = Ok R''
       ∧ square n R''
       ∧ (∀ i, i < n → cell R'' i j = Some (e i j))
       ∧ (∀ a b, b ≠ j → cell R'' a b = cell R' a b)) →
  ∃ R', for_range n body R = Ok R'
    ∧ square n R'
    ∧ ∀ i j, i < n → j < n → cell R' i j = Some (e i j).
Proof.
  intros Hsq Hbody.
  destruct (for_range_total
    (λ j R', square n R' ∧ ∀ a b, a < n → b < j → cell R' a b = Some (e a b))
    n body R) as (R' & Hrun & Hsq' & Hcells).
  - split; [done|]. intros; lia.
  - intros j T Hj (HsqT & Hcells).
    destruct (Hbody j T Hj HsqT) as (T' & HT' & HsqT' & Hcol & Hrest).
    exists T'. split; [done|]. split; [done|].
    intros a b Ha Hb. destruct (decide (b = j)) as [->|Hne]; [by apply Hcol|].
    rewrite Hrest by done. apply Hcells; lia.
  - exists R'. eauto.
Qed.

(** ** Polynomials: trailing zeros *)

Lemma trim_cons (a : Z) (c : list Z) :
  trim (a :: c) = if bool_decide (trim c = []) then (if (a =? 0)%Z then [] else [a])
                  else a :: trim c.
Proof. simpl. destruct (trim c); by case_bool_decide. Qed.

Lemma trim_length (c : list Z) : length (trim c) ≤ length c.
Proof.
  induction c as [|a c IH]; [done|]. rewrite trim_cons.
  case_bool_decide; [destruct (a =? 0)%Z|]; simpl; lia.
Qed.

Lemma trim_idemp (c : list Z) : trim (trim c) = trim c.
Proof.
  induction c as [|a c IH]; [done|]. rewrite trim_cons.
  case_bool_decide as Hc.
  - destruct (a =? 0)%Z eqn:Ha; [done|]. simpl. by rewrite Ha.
  - rewrite trim_cons, IH. by rewrite bool_decide_false.
Qed.

Lemma trim_zeros (n : nat) : trim (replicate n 0%Z) = [].
Proof. induction n as [|n IH]; [done|]. simpl. by rewrite IH. Qed.

Lemma trim_app_zeros (c : list Z) (n : nat) : trim (c ++ replicate n 0%Z) = trim c.
Proof.
  induction c as [|a c IH]; simpl; [apply trim_zeros|]. by rewrite IH.
Qed.

(** A list that ends in a nonzero coefficient has nothing to trim. *)
Lemma trim_last (c : list Z) : List.last c 0%Z ≠ 0%Z → trim c = c.
Proof.
  induction c as [|a c IH]; [done|]. intros Hlast. rewrite trim_cons.
  destruct c as [|a' c].
  - simpl in *. by apply Z.eqb_neq in Hlast as ->.
  - rewrite IH by done. by rewrite bool_decide_false.
Qed.

(** A map that sends 0, and nothing else, to 0 commutes with [trim]. *)
Lemma trim_map (f : Z → Z) (c : list Z) :
  (∀ x, f x = 0%Z ↔ x = 0%Z) → trim (map f c) = map f (trim c).
Proof.
  intros Hf. induction c as [|a c IH]; [done|].
  rewrite map_cons, !trim_cons, IH.
  case_bool_decide as Hc.
  - rewrite bool_decide_true by (by destruct (trim c)).
    destruct (Z.eqb_spec a 0) as [->|Ha].
    + by rewrite (proj2 (Hf 0%Z) eq_refl).
    + destruct (Z.eqb_spec (f a) 0) as [Hfa|_]; [|done].
      destruct Ha. by apply Hf.
  - rewrite bool_decide_false by (by destruct (trim c)). done.
Qed.

Lemma scale_opp_trim (c : list Z) : trim c = c → trim (scale (-1) c) = scale (-1) c.
Proof. intros Hc. unfold scale. rewrite trim_map by lia. by rewrite Hc. Qed.

Lemma scale_opp_opp (c : list Z) : scale (-1) (scale (-1) c) = c.
Proof.
  unfold scale. rewrite <- list_fmap_compose. rewrite <- (list_fmap_id c) at 2.
  apply list_fmap_ext. intros _ x _. simpl. lia.
Qed.

Lemma scale_1 (c : list Z) : scale 1 c = c.
Proof.
  unfold scale. rewrite <- (list_fmap_id c) at 2.
  apply list_fmap_ext. intros _ x _. simpl. lia.
Qed.

(** ** Polynomials: sums and products with 0, 1 and -1 *)

Lemma add_coeffs_nil_r (c : list Z) : add_coeffs c [] = c.
Proof. by destruct c. Qed.

Lemma add_coeffs_zero_r (c : list Z) : trim (add_coeffs c [0%Z]) = trim c.
Proof.
  destruct c as [|a c]; [done|]. cbn [add_coeffs].
  by rewrite add_coeffs_nil_r, Z.add_0_r.
Qed.

Lemma add_coeffs_opp (c : list Z) :
  add_coeffs (scale (-1) c) c = replicate (length c) 0%Z.
Proof.
  induction c as [|a c IH]; [done|]. cbn [scale map add_coeffs length replicate].
  f_equal; [lia | apply IH].
Qed.

Lemma mul_coeffs_nil_r (c : list Z) : mul_coeffs c [] = replicate (length c) 0%Z.
Proof. induction c as [|a c IH]; [done|]. simpl. by rewrite IH. Qed.

Lemma mul_coeffs_one_r (c : list Z) : mul_coeffs c [1%Z] = c.
Proof.
  induction c as [|a c IH]; [done|]. cbn [mul_coeffs scale map add_coeffs].
  rewrite IH. f_equal. lia.
Qed.

Lemma padd_nil_l (c : poly) : padd [] c = trim c.
Proof. done. Qed.

Lemma padd_nil_r (c : poly) : padd c [] = trim c.
Proof. unfold padd. by rewrite add_coeffs_nil_r. Qed.

Lemma padd_opp (c : poly) : padd (scale (-1) c) c = [].
Proof. unfold padd. rewrite add_coeffs_opp. apply trim_zeros. Qed.

Lemma add_coeffs_comm (c d : list Z) : add_coeffs c d = add_coeffs d c.
Proof.
  revert d. induction c as [|a c IH]; intros [|a' d]; try done.
  cbn [add_coeffs]. by rewrite IH, Z.add_comm.
Qed.

Lemma padd_opp_r (c : poly) : padd c (scale (-1) c) = [].
Proof. unfold padd. rewrite add_coeffs_comm. apply padd_opp. Qed.

Lemma pmul_nil_r (c : poly) : pmul c [] = [].
Proof. unfold pmul. rewrite mul_coeffs_nil_r. apply trim_zeros. Qed.

Lemma pmul_one_l (c : poly) : pmul [1%Z] c = trim c.
Proof.
  unfold pmul. cbn [mul_coeffs]. by rewrite scale_1, add_coeffs_zero_r.
Qed.

Lemma pmul_one_r (c : poly) : pmul c [1%Z] = trim c.
Proof. unfold pmul. by rewrite mul_coeffs_one_r. Qed.

Lemma pmul_opp_opp (c : poly) : pmul [(-1)%Z] (scale (-1) c) = trim c.
Proof.
  unfold pmul. cbn [mul_coeffs]. by rewrite scale_opp_opp, add_coeffs_zero_r.
Qed.

(** ** Polynomials: division by a polynomial of degree at least 0 *)

Lemma add_coeffs_length (c d : list Z) :
  length (add_coeffs c d) = length c `max` length d.
Proof.
  revert d. induction c as [|a c IH]; intros [|b d]; simpl; try done.
  by rewrite IH.
Qed.

Lemma removelast_length {A : Type} (l : list A) :
  length (removelast l) = length l - 1.
Proof.
  rewrite removelast_firstn_len, length_take. lia.
Qed.

Lemma last_cons_cons {A : Type} (a a' : A) (l : list A) (d : A) :
  List.last (a :: a' :: l) d = List.last (a' :: l) d.
Proof. done. Qed.

Lemma divmod_cons (a : Z) (c b : list Z) :
  divmod_coeffs (a :: c) b
  = let (q, r) := divmod_coeffs c b in
    if length (a :: r) <? length b then (0%Z :: q, a :: r)
    else (List.last (a :: r) 0%Z :: q,
          removelast (add_coeffs (a :: r) (scale (- List.last (a :: r) 0%Z) b))).
Proof. done. Qed.

Lemma divmod_fst_length (c b : list Z) : length (fst (divmod_coeffs c b)) = length c.
Proof.
  induction c as [|a c IH]; [done|]. rewrite divmod_cons.
  destruct (divmod_coeffs c b) as [q r]. cbn [fst] in IH.
  destruct (_ <? _); cbn [fst length]; by rewrite IH.
Qed.

(** The remainder has fewer coefficients than the divisor. *)
Lemma divmod_snd_length (c b : list Z) :
  1 ≤ length b → length (snd (divmod_coeffs c b)) < length b.
Proof.
  intros Hb. induction c as [|a c IH]; [simpl; lia|]. rewrite divmod_cons.
  destruct (divmod_coeffs c b) as [q r]. cbn [snd] in IH.
  destruct (Nat.ltb_spec (length (a :: r)) (length b)) as [Hlt|Hge]; cbn [snd]; [done|].
  rewrite removelast_length, add_coeffs_length. unfold scale. rewrite length_map.
  cbn [length] in *. lia.
Qed.

(** A dividend shorter than the divisor is its own remainder. *)
Lemma divmod_small (c b : list Z) :
  length c < length b → divmod_coeffs c b = (replicate (length c) 0%Z, c).
Proof.
  induction c as [|a c IH]; intros Hlt; [done|]. rewrite divmod_cons.
  cbn [length] in Hlt. rewrite IH by lia.
  destruct (Nat.ltb_spec (length (a :: c)) (length b)) as [_|Hge];
    [done | cbn [length] in Hge; lia].
Qed.

(** The quotient of a dividend at least as long as the divisor starts with
    the leading coefficient of the dividend. *)
Lemma divmod_fst_lead (c b : list Z) :
  1 ≤ length b → length b ≤ length c →
  ∃ l, fst (divmod_coeffs c b) = l ++ List.last c 0%Z :: replicate (length b - 1) 0%Z.
Proof.
  intros Hb. induction c as [|a c IH]; intros Hle; [simpl in *; lia|].
  rewrite divmod_cons. cbn [length] in Hle.
  destruct (decide (length b ≤ length c)) as [Hc|Hc].
  - destruct (IH Hc) as [l Hl].
    pose proof (divmod_snd_length c b Hb) as Hr.
    destruct (divmod_coeffs c b) as [q r]. cbn [fst snd] in *. subst q.
    destruct c as [|a' c]; [simpl in *; lia|]. rewrite last_cons_cons.
    destruct (_ <? _); cbn [fst].
    + by exists (0%Z :: l).
    + by eexists (_ :: l).
  - rewrite divmod_small by lia.
    destruct (Nat.ltb_spec (length (a :: c)) (length b)) as [Hlt|_];
      [cbn [length] in Hlt; lia|].
    cbn [fst]. exists []. cbn [app]. do 2 f_equal. lia.
Qed.

Lemma pmod_small (c b : poly) : trim c = c → length c < length b → pmod c b = c.
Proof. intros Hc Hlt. unfold pmod. by rewrite divmod_small. Qed.

Lemma pmod_length (c b : poly) : 1 ≤ length b → length (pmod c b) < length b.
Proof.
  intros Hb. unfold pmod. pose proof (trim_length (snd (divmod_coeffs c b))).
  pose proof (divmod_snd_length c b Hb). lia.
Qed.

Lemma pmod_trim (c b : poly) : trim (pmod c b) = pmod c b.
Proof. apply trim_idemp. Qed.

(** ** The cyclotomic polynomial has degree at least 1 *)

Lemma inflate_cons (k : nat) (a a' : Z) (c : list Z) :
  inflate k (a :: a' :: c) = a :: replicate (k - 1) 0%Z ++ inflate k (a' :: c).
Proof. done. Qed.

Lemma inflate_length (k : nat) (c : list Z) :
  1 ≤ k → c ≠ [] → length (inflate k c) = (length c - 1) * k + 1.
Proof.
  intros Hk. induction c as [|a c IH]; [done|]. intros _.
  destruct c as [|a' c]; [done|].
  rewrite inflate_cons. cbn [length].
  rewrite length_app, length_replicate, IH by done. cbn [length]. nia.
Qed.

Lemma inflate_last (k : nat) (c : list Z) :
  List.last (inflate k c) 0%Z = List.last c 0%Z.
Proof.
  induction c as [|a c IH]; [done|].
  destruct c as [|a' c]; [done|].
  rewrite inflate_cons, last_cons_cons, <- IH.
  change (a :: replicate (k - 1) 0%Z ++ inflate k (a' :: c))
    with ((a :: replicate (k - 1) 0%Z) ++ inflate k (a' :: c)).
  destruct (inflate k (a' :: c)) as [|x l] eqn:Hinf; [by destruct c|].
  by rewrite (app_removelast_last 0%Z (l := x :: l)), app_assoc, !last_last.
Qed.

Lemma inflate_monic (k : nat) (f : poly) :
  1 ≤ k → monic_nonconstant f →
  monic_nonconstant (inflate k f) ∧ length f ≤ length (inflate k f).
Proof.
  intros Hk [Hlen Hlast].
  assert (f ≠ []) as Hne by (by destruct f).
  unfold monic_nonconstant. rewrite inflate_last, inflate_length by done.
  split; [split; [nia|done] | nia].
Qed.

Lemma pdiv_inflate_monic (k : nat) (f : poly) :
  2 ≤ k → monic_nonconstant f → monic_nonconstant (pdiv (inflate k f) f).
Proof.
  intros Hk Hf. pose proof Hf as [Hlen Hlast].
  assert (f ≠ []) as Hne by (by destruct f).
  destruct (divmod_fst_lead (inflate k f) f) as [l Hl]; [lia| |].
  { rewrite inflate_length by (done || lia). nia. }
  pose proof (divmod_fst_length (inflate k f) f) as Hq.
  rewrite Hl, length_app in Hq. simpl in Hq.
  rewrite length_replicate, inflate_length in Hq by (done || lia).
  rewrite inflate_last, Hlast in Hl.
  unfold pdiv. rewrite Hl.
  change (l ++ 1%Z :: replicate (length f - 1) 0%Z)
    with (l ++ [1%Z] ++ replicate (length f - 1) 0%Z).
  rewrite app_assoc, trim_app_zeros, trim_last by (by rewrite last_last).
  split; [|by rewrite last_last].
  rewrite length_app. simpl. nia.
Qed.

Lemma cyclotomic_loop_monic (fuel : nat) (n q : Z) (fresh : bool) (phi : poly) :
  (2 ≤ q)%Z → monic_nonconstant phi →
  monic_nonconstant (cyclotomic_loop fuel n q fresh phi).
Proof.
  revert n q fresh phi. induction fuel as [|fuel IH]; intros n q fresh phi Hq Hphi;
    simpl; [done|].
  destruct (n <=? 1)%Z; [done|].
  destruct (n mod q =? 0)%Z.
  - apply IH; [done|]. destruct fresh.
    + apply pdiv_inflate_monic; [lia | done].
    + destruct (inflate_monic (Z.to_nat q) phi) as [[Hlen Hlast] _]; [lia|done|].
      rewrite trim_last by (rewrite Hlast; lia). by split.
  - apply IH; [lia | done].
Qed.

(** The base that [cyclotomic] returns is monic of degree at least 1. *)
Lemma cyclotomic_monic (m : Z) (b : poly) :
  cyclotomic m = Ok b → monic_nonconstant b.
Proof.
  unfold cyclotomic. destruct (m <? 1)%Z; [done|]. intros [= <-].
  apply cyclotomic_loop_monic; [lia|]. split; simpl; [lia | done].
Qed.

(** The first cyclotomic polynomials, and the factorisation of [x^n - 1]
    for every [n] up to 100. *)
Example cyclotomic_small :
  map cyclotomic [1; 2; 3; 4; 5; 6; 8; 12]%Z
  = map Ok [[-1; 1]; [1; 1]; [1; 1; 1]; [1; 0; 1]; [1; 1; 1; 1; 1]; [1; -1; 1];
            [1; 0; 0; 0; 1]; [1; 0; -1; 0; 1]]%Z.
Proof. vm_compute. reflexivity. Qed.

Example cyclotomic_factorisation :
  map cyclotomic_product (seq 1 100) = map (λ n, Ok (x_pow_minus_one n)) (seq 1 100).
Proof. vm_compute. reflexivity. Qed.

Example pmod_example : pmod [0; 0; 1]%Z [1; 0; 1]%Z = [(-1)%Z].
Proof. vm_compute. reflexivity. Qed.

(** ** Arithmetic of reduced algebraic integers *)

Lemma aint_init_int_p (b : poly) (n : Z) :
  2 ≤ length b → n ≠ 0%Z → aint.p (aint.init b (inl n)) = [n].
Proof.
  intros Hb Hn. simpl. apply Z.eqb_neq in Hn. rewrite Hn.
  apply pmod_small; simpl; [by rewrite Hn | lia].
Qed.

Section ring_facts.

Variable b : poly.
Hypothesis base_degree : 2 ≤ length b.

Let zero := aint.init b (inl 0%Z).
Let one := aint.init b (inl 1%Z).
Let minus_one := aint.init b (inl (-1)%Z).

Lemma aint_eq (a c : aint.t) : aint.base a = aint.base c → aint.p a = aint.p c → a = c.
Proof. destruct a, c. simpl. by intros -> ->. Qed.

Lemma reduced_init (v : Z + list Z) : reduced b (aint.init b v).
Proof.
  split; [done|]. split; [apply pmod_trim | apply pmod_length; lia].
Qed.

Lemma init_reduced (a : aint.t) : reduced b a → aint.init b (inr (aint.p a)) = a.
Proof.
  intros (Hb & Ht & Hl). apply aint_eq; [done|]. simpl.
  rewrite Ht. by apply pmod_small.
Qed.

Lemma neg_p (a : aint.t) : reduced b a → aint.p (aint.neg a) = scale (-1) (aint.p a).
Proof.
  intros (Hb & Ht & Hl). simpl. unfold pneg.
  rewrite !scale_opp_trim by done. rewrite pmod_small; [done| |].
  - by apply scale_opp_trim.
  - unfold scale. by rewrite length_map, Hb.
Qed.

Lemma reduced_neg (a : aint.t) : reduced b a → reduced b (aint.neg a).
Proof.
  intros Ha. unfold aint.neg. destruct Ha as (Hb & _). rewrite Hb.
  apply reduced_init.
Qed.

Lemma add_zero_l (a : aint.t) : reduced b a → aint.add zero a = a.
Proof.
  intros Ha. unfold aint.add. simpl aint.base. rewrite padd_nil_l.
  destruct Ha as (Hb & Ht & Hl). rewrite Ht. by apply init_reduced.
Qed.

Lemma add_zero_r (a : aint.t) : reduced b a → aint.add a zero = a.
Proof.
  intros Ha. unfold aint.add. simpl (aint.p zero). rewrite padd_nil_r.
  destruct Ha as (Hb & Ht & Hl). rewrite Hb, Ht. by apply init_reduced.
Qed.

Lemma add_neg_l (a : aint.t) : reduced b a → aint.add (aint.neg a) a = zero.
Proof.
  intros Ha. unfold aint.add. rewrite neg_p, padd_opp by done.
  destruct Ha as (Hb & _). simpl aint.base. by rewrite Hb.
Qed.

Lemma add_neg_r (a : aint.t) : reduced b a → aint.add a (aint.neg a) = zero.
Proof.
  intros Ha. unfold aint.add. rewrite neg_p, padd_opp_r by done.
  destruct Ha as (Hb & _). by rewrite Hb.
Qed.

Lemma mul_zero_r (a : aint.t) : aint.base a = b → aint.mul a zero = zero.
Proof.
  intros Hb. unfold aint.mul. simpl (aint.p zero). by rewrite pmul_nil_r, Hb.
Qed.

Lemma one_p : aint.p one = [1%Z].
Proof. by apply aint_init_int_p. Qed.

Lemma minus_one_p : aint.p minus_one = [(-1)%Z].
Proof. by apply aint_init_int_p. Qed.

Lemma mul_one_l (a : aint.t) : reduced b a → aint.mul one a = a.
Proof.
  intros Ha. unfold aint.mul. rewrite one_p, pmul_one_l.
  destruct Ha as (Hb & Ht & Hl). rewrite Ht. by apply init_reduced.
Qed.

Lemma mul_one_r (a : aint.t) : reduced b a → aint.mul a one = a.
Proof.
  intros Ha. unfold aint.mul. rewrite one_p, pmul_one_r.
  destruct Ha as (Hb & Ht & Hl). rewrite Hb, Ht. by apply init_reduced.
Qed.

Lemma mul_minus_one_minus_one : aint.mul minus_one minus_one = one.
Proof.
  unfold aint.mul. rewrite minus_one_p. apply aint_eq; [done|].
  rewrite one_p. simpl aint.p. apply pmod_small; simpl; [done | lia].
Qed.

Lemma mul_minus_one_neg (a : aint.t) : reduced b a → aint.mul minus_one (aint.neg a) = a.
Proof.
  intros Ha. unfold aint.mul. rewrite minus_one_p, neg_p, pmul_opp_opp by done.
  destruct Ha as (Hb & Ht & Hl). rewrite Ht. by apply init_reduced.
Qed.

End ring_facts.

(** ** Sums of products *)

Lemma column_map (n : nat) (f : nat → nat → pyobj) (j : nat) (rows : list nat) :
  j < n →
  column (map (λ i, map (λ j, f i j) (seq 0 n)) rows) j = map (λ l, f l j) rows.
Proof.
  intros Hj. unfold column. induction rows as [|l rows IH]; [done|]. simpl.
  rewrite list_lookup_fmap, lookup_seq_lt by done. simpl. f_equal. exact IH.
Qed.

Lemma grid_of_column (n : nat) (f : nat → nat → pyobj) (j : nat) :
  j < n → column (grid_of n f) j = map (λ l, f l j) (seq 0 n).
Proof. apply column_map. Qed.

(** The product of two square arrays whose sums of products all succeed. *)
Lemma np_dot_grid_of (n : nat) (f g p : nat → nat → pyobj) :
  (∀ i j, i < n → j < n →
     vdot (map (λ l, f i l) (seq 0 n)) (map (λ l, g l j) (seq 0 n)) = Ok (p i j)) →
  np_dot (grid_of n f) (grid_of n g) = Ok (grid_of n p).
Proof.
  intros Hdot. unfold np_dot.
  rewrite !grid_of_ncols, grid_of_length, bool_decide_true by done.
  change (grid_of n f) with (map (λ i, map (λ l, f i l) (seq 0 n)) (seq 0 n)).
  rewrite map_result_map.
  apply (map_result_seq _ (λ i, map (λ j, p i j) (seq 0 n))). intros i Hi.
  apply map_result_seq. intros j Hj.
  rewrite grid_of_column by lia. apply Hdot; lia.
Qed.

Lemma dot_acc_aint (f g : nat → aint.t) (acc : aint.t) (ls : list nat) :
  dot_acc (PyAint acc) (map (λ l, PyAint (f l)) ls) (map (λ l, PyAint (g l)) ls)
  = Ok (PyAint (foldl (λ acc l, aint.add acc (aint.mul (f l) (g l))) acc ls)).
Proof.
  revert acc. induction ls as [|l ls IH]; intros acc; [done|]. simpl. apply IH.
Qed.

(** On algebraic integers numpy's sum of products raises nothing and is
    the sum of the products, added from left to right. *)
Lemma vdot_aint (f g : nat → aint.t) (n : nat) :
  1 ≤ n →
  vdot (map (λ l, PyAint (f l)) (seq 0 n)) (map (λ l, PyAint (g l)) (seq 0 n))
  = Ok (PyAint (sum_of_products f g n)).
Proof.
  intros Hn. destruct n as [|n]; [lia|]. simpl.
  rewrite dot_acc_aint. unfold sum_of_products. simpl. by rewrite Nat.sub_0_r.
Qed.

Lemma sum_of_products_1 (f g : nat → aint.t) :
  sum_of_products f g 1 = aint.mul (f 0) (g 0).
Proof. done. Qed.

Lemma sum_of_products_S (f g : nat → aint.t) (n : nat) :
  1 ≤ n →
  sum_of_products f g (S n)
  = aint.add (sum_of_products f g n) (aint.mul (f n) (g n)).
Proof.
  intros Hn. unfold sum_of_products.
  replace (S n - 1) with (S (n - 1)) by lia.
  rewrite seq_S, foldl_app. simpl. by replace (S (n - 1)) with n by lia.
Qed.

Section sparse_sums.

Variable b : poly.
Hypothesis base_degree : 2 ≤ length b.

Let zero := aint.init b (inl 0%Z).

(** A sum whose products all vanish but one is that one product. *)
Lemma sum_of_products_single (f g : nat → aint.t) (n pos : nat) (x : aint.t) :
  pos < n → reduced b x →
  (∀ l, l < n → l ≠ pos → aint.mul (f l) (g l) = zero) →
  aint.mul (f pos) (g pos) = x →
  sum_of_products f g n = x.
Proof.
  intros Hpos Hx Hzero Hprod.
  assert (∀ t, t < n → sum_of_products f g (S t) = if decide (t < pos) then zero else x)
    as Hsum.
  { induction t as [|t IH]; intros Ht.
    - rewrite sum_of_products_1. case_decide; [apply Hzero; lia|].
      by replace pos with 0 in * by lia.
    - rewrite sum_of_products_S, IH by lia.
      destruct (decide (S t = pos)) as [<-|Hne].
      + rewrite decide_True, decide_False by lia. rewrite Hprod. by apply add_zero_l.
      + rewrite Hzero by lia. do 2 case_decide; try lia.
        * done.
        * by apply add_zero_r. }
  destruct n as [|n]; [lia|]. rewrite Hsum by lia. rewrite decide_False by lia. done.
Qed.

(** A sum whose products all vanish but two that cancel is zero. *)
Lemma sum_of_products_pair (f g : nat → aint.t) (n p1 p2 : nat) (x y : aint.t) :
  p1 < p2 → p2 < n → reduced b x →
  (∀ l, l < n → l ≠ p1 → l ≠ p2 → aint.mul (f l) (g l) = zero) →
  aint.mul (f p1) (g p1) = x →
  aint.mul (f p2) (g p2) = y →
  aint.add x y = zero →
  sum_of_products f g n = zero.
Proof.
  intros H12 Hp2 Hx Hzero Hprod1 Hprod2 Hxy.
  assert (∀ t, t < n → sum_of_products f g (S t)
            = if decide (t < p1) then zero else if decide (t < p2) then x else zero)
    as Hsum.
  { induction t as [|t IH]; intros Ht.
    - rewrite sum_of_products_1. case_decide; [apply Hzero; lia|].
      replace p1 with 0 in * by lia. by rewrite decide_True by lia.
    - rewrite sum_of_products_S, IH by lia.
      destruct (decide (S t = p1)) as [<-|Hne1].
      + rewrite Hprod1. rewrite decide_True, decide_False, decide_True by lia.
        by apply add_zero_l.
      + destruct (decide (S t = p2)) as [<-|Hne2].
        * rewrite Hprod2. rewrite decide_False, decide_True by lia.
          rewrite decide_False, decide_False by lia. done.
        * rewrite Hzero by lia. repeat case_decide; try lia.
          -- done.
          -- by apply add_zero_r.
          -- done. }
  destruct n as [|n]; [lia|]. rewrite Hsum by lia.
  by rewrite decide_False, decide_False by lia.
Qed.

End sparse_sums.

(** On square arrays of algebraic integers [np.dot] is the standard
    product. *)
Lemma np_dot_standard (n : nat) (a c : grid) :
  1 ≤ n → square n a → square n c →
  aint_cells a = true → aint_cells c = true →
  np_dot a c = Ok (standard_product n a c).
Proof.
  intros Hn Hsa Hsc Haa Hac.
  transitivity (np_dot (grid_of n (λ i j, PyAint (cell_aint a i j)))
                       (grid_of n (λ i j, PyAint (cell_aint c i j)))).
  { f_equal; by apply square_aint_grid_of. }
  apply np_dot_grid_of. intros i j Hi Hj.
  by apply (vdot_aint (λ l, cell_aint a i l) (λ l, cell_aint c l j)).
Qed.

(** ** [is_identity] *)

Lemma lower_zero_spec (g : grid) (i : nat) (js : list nat) :
  (∀ j, j ∈ js → is_Some (cell g i j)) →
  ∃ r, Matrix.lower_zero g i js = Ok r
     ∧ (r = true ↔ ∀ j, j ∈ js → cell_is_zero g i j).
Proof.
  induction js as [|j js IH]; intros Hcells.
  - exists true. split; [done|]. split; [|done]. intros _ j Hj. by apply elem_of_nil in Hj.
  - destruct (Hcells j) as [x Hx]; [left|].
    destruct IH as (r & Hr & Hiff); [intros; apply Hcells; by right|].
    cbn [Matrix.lower_zero]. rewrite (proj2 (getitem2_Ok g i j x) Hx). simpl.
    destruct (py_ne_int x 0) eqn:Hne.
    + exists false. split; [done|]. split; [done|]. intros Hall.
      destruct (Hall j) as (x' & Hx' & Hz); [left|]. congruence.
    + exists r. split; [done|]. rewrite Hiff. split.
      * intros Hall j' [->|Hj']%elem_of_cons; [by exists x | by apply Hall].
      * intros Hall j' Hj'. apply Hall. by right.
Qed.

Lemma is_identity_rows_spec (g : grid) (rows : list nat) :
  (∀ i, i ∈ rows →
     (∃ a, cell g i i = Some (PyAint a)) ∧ ∀ j, j < i → is_Some (cell g i j)) →
  ∃ r, Matrix.is_identity_rows g rows = Ok r
     ∧ (r = true ↔
        ∀ i, i ∈ rows → diagonal_is_one g i ∧ ∀ j, j < i → cell_is_zero g i j).
Proof.
  induction rows as [|i rows IH]; intros Hcells.
  - exists true. split; [done|]. split; [|done]. intros _ i Hi. by apply elem_of_nil in Hi.
  - destruct (Hcells i) as [[a Ha] Hlow]; [left|].
    destruct IH as (r & Hr & Hiff); [intros; apply Hcells; by right|].
    destruct (lower_zero_spec g i (seq 0 i)) as (z & Hz & Hziff).
    { intros j Hj%elem_of_seq. apply Hlow. lia. }
    cbn [Matrix.is_identity_rows].
    rewrite (proj2 (getitem2_Ok g i i _) Ha). simpl.
    destruct (poly_eq_int (aint.p a) 1) eqn:Hone; simpl.
    + rewrite Hz. simpl. destruct z.
      * exists r. split; [done|]. rewrite Hiff. split.
        -- intros Hall i' [->|Hi']%elem_of_cons; [|by apply Hall].
           split; [by exists a|]. intros j Hj.
           apply (proj1 Hziff eq_refl), elem_of_seq. lia.
        -- intros Hall i' Hi'. apply Hall. by right.
      * exists false. split; [done|]. split; [done|]. intros Hall.
        destruct (Hall i) as [_ Hzero]; [left|].
        apply Hziff. intros j Hj%elem_of_seq. apply Hzero. lia.
    + exists false. split; [done|]. split; [done|]. intros Hall.
      destruct (Hall i) as [(a' & Ha' & Hone') _]; [left|]. congruence.
Qed.

(** [is_identity] reads the diagonal and the cells below it, nothing else. *)
Lemma is_identity_rows_ext (g1 g2 : grid) (rows : list nat) :
  (∀ i j, j ≤ i → cell g1 i j = cell g2 i j) →
  Matrix.is_identity_rows g1 rows = Matrix.is_identity_rows g2 rows.
Proof.
  intros Hext.
  assert (∀ i j, j ≤ i → getitem2 g1 i j = getitem2 g2 i j) as Hget.
  { intros i j Hij. specialize (Hext i j Hij). unfold getitem2, getitem, cell in *.
    destruct (g1 !! i) as [r1|], (g2 !! i) as [r2|]; simpl in *; try done.
    - by rewrite Hext.
    - by rewrite Hext.
    - by rewrite <- Hext. }
  assert (∀ i js, (∀ j, j ∈ js → j ≤ i) →
            Matrix.lower_zero g1 i js = Matrix.lower_zero g2 i js) as Hlow.
  { intros i js. induction js as [|j js IH]; intros Hjs; [done|].
    cbn [Matrix.lower_zero]. rewrite Hget by (apply Hjs; left).
    destruct (getitem2 g2 i j) as [x|e]; simpl; [|done].
    destruct (py_ne_int x 0); [done|]. apply IH. intros; apply Hjs. by right. }
  induction rows as [|i rows IH]; [done|].
  cbn [Matrix.is_identity_rows]. rewrite Hget by done.
  destruct (getitem2 g2 i i) as [x|e]; simpl; [|done].
  destruct (getattr_p x) as [ap|e]; simpl; [|done].
  destruct (negb _); [done|].
  rewrite Hlow by (intros j Hj%elem_of_seq; lia).
  destruct (Matrix.lower_zero g2 i (seq 0 i)) as [[]|e]; simpl; by rewrite ?IH.
Qed.

(** C6: on a square matrix of algebraic integers [is_identity] returns a
    boolean, which is true exactly when the polynomial [p] of every diagonal
    cell equals 1 and every cell strictly below the diagonal equals 0; the
    cells strictly above the diagonal are not examined: the result is the
    same for any other array that agrees on and below the diagonal. *)
Theorem is_identity_iff (A : Matrix.t) :
  square_matrix A →
  aint_cells (Matrix.M A) = true →
  (∃ r, Matrix.is_identity A = Ok r
      ∧ (r = true ↔
         (∀ i, i < Matrix.dim A → diagonal_is_one (Matrix.M A) i)
         ∧ (∀ i j, j < i → i < Matrix.dim A → cell_is_zero (Matrix.M A) i j)))
  ∧ (∀ g, (∀ i j, j ≤ i → cell g i j = cell (Matrix.M A) i j) →
          Matrix.is_identity (Matrix.mk (Matrix.base A) g (Matrix.dim A))
          = Matrix.is_identity A).
Proof.
  intros Hsq Haint. split.
  - destruct (is_identity_rows_spec (Matrix.M A) (seq 0 (Matrix.dim A)))
      as (r & Hr & Hiff).
    { intros i Hi%elem_of_seq. split.
      - destruct (square_cell _ _ i i Hsq) as [x Hx]; [lia..|].
        destruct (aint_cells_cell _ _ _ _ Haint Hx) as [a ->]. eauto.
      - intros j Hj. apply (square_cell _ _ i j Hsq); lia. }
    exists r. split; [done|]. rewrite Hiff. split.
    + intros Hall. split.
      * intros i Hi. apply Hall, elem_of_seq. lia.
      * intros i j Hj Hi. apply Hall; [apply elem_of_seq; lia | done].
    + intros [Hd Hz] i Hi%elem_of_seq. split; [apply Hd; lia|].
      intros j Hj. apply Hz; [done | lia].
  - intros g Hg. unfold Matrix.is_identity. simpl. by apply is_identity_rows_ext.
Qed.

Lemma is_identity_iff_witness :
  square_matrix cartan_237
  ∧ aint_cells (Matrix.M cartan_237) = true
  ∧ (∃ r, Matrix.is_identity cartan_237 = Ok r
        ∧ (r = true ↔
           (∀ i, i < Matrix.dim cartan_237 → diagonal_is_one (Matrix.M cartan_237) i)
           ∧ (∀ i j, j < i → i < Matrix.dim cartan_237 →
                cell_is_zero (Matrix.M cartan_237) i j)))
  ∧ (∀ g, (∀ i j, j ≤ i → cell g i j = cell (Matrix.M cartan_237) i j) →
          Matrix.is_identity
            (Matrix.mk (Matrix.base cartan_237) g (Matrix.dim cartan_237))
          = Matrix.is_identity cartan_237).
Proof.
  split; [vm_compute; reflexivity|]. split; [vm_compute; reflexivity|].
  apply (is_identity_iff cartan_237); vm_compute; reflexivity.
Defined.

(** ** [__mul__] *)

(** C3, on the code: the test of [__mul__] reads
    [(not all(...)) and (len(other) == self.dim)], so it lets every sequence
    of a wrong length through.  For the Cartan matrix [C] of dimension 2 and
    the one-item sequence [[C.M]], which has a wrong length and holds no
    algebraic integer, the test is false, the shapes (2, 2) and (1, 2, 2)
    are aligned for [np.dot], and a product comes back: the array of shape
    (2, 1, 2) of the cells of [C·C]. *)
Theorem matrix_sequence_guard_slip :
  Matrix.cartan_matrix coxeter_22 = Ok cartan_22
  ∧ length [Block (Matrix.M cartan_22)] ≠ Matrix.dim cartan_22
  ∧ forallb isinstance_aint_item [Block (Matrix.M cartan_22)] = false
  ∧ negb (forallb isinstance_aint_item [Block (Matrix.M cartan_22)])
    && bool_decide (length [Block (Matrix.M cartan_22)] = Matrix.dim cartan_22) = false
  ∧ Matrix.__mul__ cartan_22 (Matrix.OSeq [Block (Matrix.M cartan_22)])
    = Ok (Matrix.PArray (Array3
        (map (λ row, [row])
           (standard_product 2 (Matrix.M cartan_22) (Matrix.M cartan_22))))).
Proof.
  split; [vm_compute; reflexivity|].
  split; [simpl; lia|]. split; [done|]. split; [done|]. vm_compute. reflexivity.
Qed.

Lemma as_objects_length (l : list item) (v : list pyobj) :
  as_objects l = Some v → length v = length l.
Proof. intros H. symmetry. by eapply length_mapM. Qed.

Lemma as_rows_length (l : list item) (g : grid) :
  as_rows l = Some g → length g = length l.
Proof. intros H. symmetry. by eapply length_mapM. Qed.

Lemma as_blocks_no_block (l : list item) (bs : list grid) :
  as_blocks l = Some bs → no_block l = true → l = [].
Proof.
  destruct l as [|x l]; [done|]. unfold as_blocks, no_block. simpl.
  destruct x; simpl; done.
Qed.

(** X21: a square matrix times a sequence of objects or of rows (no
    two-dimensional item) that has a wrong length or holds something that
    is no algebraic integer always raises: the test of [__mul__] refuses it
    when the length is right ([TypeError]), and [np.dot], whose shapes are
    not aligned, when it is wrong ([ValueError]). *)
Lemma matrix_sequence_mismatch (A : Matrix.t) (l : list item) :
  square_matrix A →
  no_block l = true →
  length l ≠ Matrix.dim A ∨ forallb isinstance_aint_item l = false →
  Matrix.__mul__ A (Matrix.OSeq l)
  = Raise (if bool_decide (length l = Matrix.dim A) then TypeError else ValueError).
Proof.
  intros Hsq Hflat Hbad. unfold Matrix.__mul__. case_bool_decide as Hlen.
  - destruct Hbad as [Hne | ->]; [done|]. done.
  - rewrite andb_false_r. unfold np_dot_seq.
    destruct (as_objects l) as [v|] eqn:Hv.
    { apply as_objects_length in Hv. unfold np_dot_vec.
      rewrite (square_ncols _ _ Hsq), bool_decide_false by lia. done. }
    destruct (as_rows l) as [g|] eqn:Hg.
    { apply as_rows_length in Hg. destruct (rectangular g); [|done].
      unfold np_dot. rewrite (square_ncols _ _ Hsq), bool_decide_false by lia. done. }
    destruct (as_blocks l) as [bs|] eqn:Hbs; [|done].
    apply as_blocks_no_block in Hbs; [|done]. by subst l.
Qed.

(** C4, as the code has it: for two square matrices of algebraic integers,
    the right one with at least one row, [__mul__] raises [TypeError] when
    the bases differ (the operand is then taken for a sequence, and [len] of
    a Matrix raises); when the bases are equal it returns the [Matrix] of
    the standard product over that base if the dimensions agree, and raises
    the [ValueError] of [np.dot] if they do not. *)
Theorem matrix_mul_matrix (A B : Matrix.t) :
  square_matrix A → square_matrix B →
  aint_cells (Matrix.M A) = true → aint_cells (Matrix.M B) = true →
  1 ≤ Matrix.dim B →
  Matrix.__mul__ A (Matrix.OMatrix B)
  = if bool_decide (Matrix.base A = Matrix.base B) then
      if bool_decide (Matrix.dim A = Matrix.dim B) then
        Ok (Matrix.PMatrix
              (Matrix.__init__ (Matrix.base A)
                 (standard_product (Matrix.dim A) (Matrix.M A) (Matrix.M B))))
      else Raise ValueError
    else Raise TypeError.
Proof.
  intros HsqA HsqB HaA HaB HdB. unfold Matrix.__mul__.
  pose proof (square_length _ _ HsqB) as HlenB.
  case_bool_decide as Hbase.
  - case_bool_decide as Hdim.
    + unfold square_matrix in HsqB. rewrite <- Hdim in HsqB, HdB.
      rewrite (np_dot_standard (Matrix.dim A)) by done.
      destruct (Matrix.M B); [simpl in HlenB; lia|]. by destruct (Matrix.M A).
    + unfold np_dot. rewrite (square_ncols _ _ HsqA), HlenB.
      rewrite bool_decide_false by done.
      destruct (Matrix.M B); [simpl in HlenB; lia|]. by destruct (Matrix.M A).
  - destruct (Matrix.M B); [simpl in HlenB; lia | done].
Qed.

Lemma matrix_mul_matrix_witness :
  square_matrix cartan_22 ∧ square_matrix cartan_22
  ∧ aint_cells (Matrix.M cartan_22) = true ∧ aint_cells (Matrix.M cartan_22) = true
  ∧ 1 ≤ Matrix.dim cartan_22
  ∧ Matrix.__mul__ cartan_22 (Matrix.OMatrix cartan_22)
    = if bool_decide (Matrix.base cartan_22 = Matrix.base cartan_22) then
        if bool_decide (Matrix.dim cartan_22 = Matrix.dim cartan_22) then
          Ok (Matrix.PMatrix
                (Matrix.__init__ (Matrix.base cartan_22)
                   (standard_product (Matrix.dim cartan_22)
                      (Matrix.M cartan_22) (Matrix.M cartan_22))))
        else Raise ValueError
      else Raise TypeError.
Proof.
  split; [vm_compute; reflexivity|]. split; [vm_compute; reflexivity|].
  split; [vm_compute; reflexivity|]. split; [vm_compute; reflexivity|].
  split; [simpl; lia|].
  apply (matrix_mul_matrix cartan_22 cartan_22);
    [vm_compute; reflexivity.. | simpl; lia].
Defined.

(** C4, as stated, fails: the Cartan matrices of two valid Coxeter
    matrices, over the same base, of dimensions 2 and 3, whose product
    [np.dot] refuses. *)
Lemma matrix_mul_same_base_refuted :
  ¬ (∀ (MA MB : list (list Z)) (A B : Matrix.t),
       coxeter_matrix MA = true → coxeter_matrix MB = true →
       Matrix.cartan_matrix MA = Ok A → Matrix.cartan_matrix MB = Ok B →
       (Matrix.base A ≠ Matrix.base B →
          ∃ e, Matrix.__mul__ A (Matrix.OMatrix B) = Raise e)
       ∧ (Matrix.base A = Matrix.base B →
          ∃ P, Matrix.__mul__ A (Matrix.OMatrix B) = Ok (Matrix.PMatrix P))).
Proof.
  intros H.
  destruct (H coxeter_22 coxeter_222 cartan_22 cartan_222) as [_ Hsame];
    [vm_compute; reflexivity..|].
  destruct Hsame as [P HP]; [vm_compute; reflexivity|].
  vm_compute in HP. discriminate HP.
Qed.

(** With two matrices without rows over different bases nothing is raised:
    the iteration over the operand is empty, the test passes, and [np.dot]
    returns the empty array. *)
Lemma matrix_mul_no_rows (bA bB : poly) :
  bA ≠ bB →
  Matrix.__mul__ (Matrix.__init__ bA []) (Matrix.OMatrix (Matrix.__init__ bB []))
  = Ok (Matrix.PArray (Array1 [])).
Proof.
  intros Hne. unfold Matrix.__mul__. simpl. by rewrite bool_decide_false.
Qed.

(** ** [cartan_matrix] *)

(** One pass of the inner loop of the second phase: a value is computed from
    the Coxeter entry and stored in the cell and in its mirror image. *)
Lemma cartan_pair_Ok (M : list (list Z)) (b : poly) (m : Z) (i j : nat) (C C' : grid) :
  (Mij ← getitem2 M i j;
   let mij2 := (2 * Mij)%Z in
   if (0 <? mij2)%Z then
     z ← list_setitem (replicate (Z.to_nat m) 0%Z) (m / mij2) (-1)%Z;
     z ← list_setitem z (m - m / mij2) (-1)%Z;
     let zeta := PyAint (aint.init b (inr z)) in
     C ← setitem2 C i j zeta;
     setitem2 C j i zeta
   else
     let v := PyAint (aint.init b (inl (-2)%Z)) in
     C ← setitem2 C i j v;
     setitem2 C j i v) = Ok C' →
  ∃ Mij v C1,
    cell M i j = Some Mij
    ∧ cartan_offdiag b m Mij = Ok v
    ∧ setitem2 C i j v = Ok C1
    ∧ setitem2 C1 j i v = Ok C'.
Proof.
  intros H. apply bind_Ok in H as (Mij & HM & H). apply getitem2_Ok in HM.
  exists Mij. unfold cartan_offdiag. simpl in *.
  destruct (0 <? 2 * Mij)%Z.
  - apply bind_Ok in H as (z1 & Hz1 & H). apply bind_Ok in H as (z2 & Hz2 & H).
    apply bind_Ok in H as (C1 & HC1 & H).
    rewrite Hz1. simpl. rewrite Hz2. simpl. eauto 10.
  - apply bind_Ok in H as (C1 & HC1 & H). eauto 10.
Qed.

Lemma cartan_pair_step (M : list (list Z)) (b : poly) (m : Z) (i j : nat)
    (C C1 C' : grid) (Mij : Z) (v d : pyobj) (n : nat) :
  j < i →
  cell M i j = Some Mij → cartan_offdiag b m Mij = Ok v →
  setitem2 C i j v = Ok C1 → setitem2 C1 j i v = Ok C' →
  map length C' = map length C
  ∧ ((∀ a, a < n → cell C a a = Some d) → ∀ a, a < n → cell C' a a = Some d)
  ∧ (cartan_pairs M b m C (λ a c, a < i ∨ (a = i ∧ c < j)) →
     cartan_pairs M b m C' (λ a c, a < i ∨ (a = i ∧ c < Datatypes.S j))).
Proof.
  intros Hji HM Hv H1 H2.
  apply setitem2_Ok in H1 as (Hs1 & Hset1 & Hother1).
  apply setitem2_Ok in H2 as (Hs2 & Hset2 & Hother2).
  split; [congruence|]. split.
  - intros Hdiag a Ha.
    rewrite Hother2, Hother1 by (intros [= ? ?]; lia). by apply Hdiag.
  - intros Hpairs a c Hca Hbefore.
    destruct (decide (a = i ∧ c = j)) as [[-> ->]|Hne].
    + exists Mij, v. split; [done|]. split; [done|]. split; [|done].
      rewrite Hother2 by (intros [= ? ?]; lia). done.
    + destruct (Hpairs a c Hca) as (Mac & w & HMac & Hw & Hac & Hca'); [lia|].
      exists Mac, w. split; [done|]. split; [done|].
      rewrite !Hother2, !Hother1 by (intros [= ? ?]; lia). done.
Qed.

(** What [cartan_matrix] has built when it returns. *)
Lemma cartan_matrix_Ok (M : list (list Z)) (C : Matrix.t) :
  Matrix.cartan_matrix M = Ok C →
  ∃ m,
    Matrix.cartan_index M = Ok m
    ∧ cyclotomic m = Ok (Matrix.base C)
    ∧ Matrix.dim C = length M
    ∧ map length (Matrix.M C) = map length M
    ∧ (∀ i, i < length M →
         cell (Matrix.M C) i i = Some (PyAint (aint.init (Matrix.base C) (inl 2%Z))))
    ∧ cartan_pairs M (Matrix.base C) m (Matrix.M C) (λ a _, a < length M).
Proof.
  unfold Matrix.cartan_matrix. intros H.
  apply bind_Ok in H as (m & Hm & H). exists m. split; [done|].
  apply bind_Ok in H as (b & Hb & H).
  apply bind_Ok in H as (Z0 & HZ0 & H). apply zeros_like_Ok in HZ0.
  apply bind_Ok in H as (C1 & HC1 & H).
  apply bind_Ok in H as (C2 & HC2 & [= <-]). simpl.
  set (two := PyAint (aint.init b (inl 2%Z))).
  (* first phase: the diagonal *)
  apply (for_range_inv
    (λ i T, map length T = map length M ∧ ∀ a, a < i → cell T a a = Some two))
    in HC1 as [Hs1 Hdiag1].
  2: { split; [done|]. intros; lia. }
  2: { intros i T T' Hi [HsT HdT] Hset.
       apply setitem2_Ok in Hset as (Hs & Hset & Hother).
       split; [congruence|]. intros a Ha.
       destruct (decide (a = i)) as [->|Hne]; [done|].
       rewrite Hother by congruence. apply HdT. lia. }
  (* second phase: the pairs below the diagonal and their mirror images *)
  apply (for_range_inv
    (λ i T, map length T = map length M
       ∧ (∀ a, a < length M → cell T a a = Some two)
       ∧ cartan_pairs M b m T (λ a _, a < i)))
    in HC2 as (Hs2 & Hdiag2 & Hpairs2).
  - split; [done|]. split; [|done].
    apply (f_equal length) in Hs2. by rewrite !length_map in Hs2.
  - split; [done|]. split; [done|]. intros a c _ Ha. lia.
  - intros i T T' Hi (HsT & HdT & HpT) Hrow.
    apply (for_range_inv
      (λ j U, map length U = map length M
         ∧ (∀ a, a < length M → cell U a a = Some two)
         ∧ cartan_pairs M b m U (λ a c, a < i ∨ (a = i ∧ c < j))))
      in Hrow as (HsU & HdU & HpU).
    + split; [done|]. split; [done|].
      intros a c Hca Ha. apply HpU; [done|]. lia.
    + split; [done|]. split; [done|].
      intros a c Hca Ha. apply HpT; [done|]. lia.
    + intros j U U' Hj (HsU & HdU & HpU) Hbody.
      apply cartan_pair_Ok in Hbody as (Mij & v & U1 & HMij & Hv & HU1 & HU').
      destruct (cartan_pair_step M b m i j U U1 U' Mij v two (length M)
                  Hj HMij Hv HU1 HU') as (Hs & Hd & Hp).
      split; [congruence|]. split; [by apply Hd|]. by apply Hp.
Qed.

Lemma cartan_offdiag_aint (b : poly) (m Mij : Z) (v : pyobj) :
  cartan_offdiag b m Mij = Ok v → ∃ w, v = PyAint (aint.init b w).
Proof.
  unfold cartan_offdiag. simpl. destruct (0 <? 2 * Mij)%Z; [|intros [= <-]; eauto].
  intros H. apply bind_Ok in H as (z1 & _ & H).
  apply bind_Ok in H as (z2 & _ & [= <-]). eauto.
Qed.

(** Every cell of a Cartan matrix is an algebraic integer over its base, in
    reduced form. *)
Lemma cartan_matrix_cells (M : list (list Z)) (C : Matrix.t) (i j : nat) :
  Matrix.cartan_matrix M = Ok C →
  i < length M → j < length M →
  ∃ a, cell (Matrix.M C) i j = Some (PyAint a) ∧ reduced (Matrix.base C) a.
Proof.
  intros HC Hi Hj.
  destruct (cartan_matrix_Ok M C HC) as (m & _ & Hb & _ & _ & Hdiag & Hpairs).
  apply cyclotomic_monic in Hb as [Hlen _].
  destruct (lt_eq_lt_dec i j) as [[Hlt|Heq]|Hgt]; [|subst j|].
  - destruct (Hpairs j i Hlt Hj) as (Mji & v & _ & Hv & _ & Hij).
    apply cartan_offdiag_aint in Hv as [w ->]. eexists. split; [done|].
    by apply reduced_init.
  - eexists. split; [by apply Hdiag|]. by apply reduced_init.
  - destruct (Hpairs i j Hgt Hi) as (Mij & v & _ & Hv & Hij & _).
    apply cartan_offdiag_aint in Hv as [w ->]. eexists. split; [done|].
    by apply reduced_init.
Qed.

Lemma coxeter_matrix_square (M : list (list Z)) :
  coxeter_matrix M = true → square (length M) M.
Proof.
  unfold coxeter_matrix. intros [Hrows _]%andb_true_iff.
  rewrite forallb_forall in Hrows. unfold square.
  apply list_eq. intros i. rewrite list_lookup_fmap.
  destruct (M !! i) as [row|] eqn:Hrow; simpl.
  - rewrite lookup_replicate_2 by (by eapply lookup_lt_Some). f_equal.
    apply Nat.eqb_eq, Hrows, list_elem_of_In. by eapply list_elem_of_lookup_2.
  - symmetry. apply lookup_replicate_None. by apply lookup_ge_None in Hrow.
Qed.

Lemma cartan_matrix_square (M : list (list Z)) (C : Matrix.t) :
  coxeter_matrix M = true → Matrix.cartan_matrix M = Ok C → square_matrix C.
Proof.
  intros HM HC.
  destruct (cartan_matrix_Ok M C HC) as (m & _ & _ & Hdim & Hshape & _).
  unfold square_matrix, square. rewrite Hdim, Hshape.
  by apply coxeter_matrix_square.
Qed.

(** ** The Cartan matrix: diagonal and symmetry *)

(** C8: when [cartan_matrix(M)] returns a matrix, each of its diagonal
    cells [i][i], for [i] below the dimension of [M], is the algebraic
    integer [aint(b, 2)], the integer 2 lifted into the field of the
    matrix, and its polynomial [p] is the constant 2. *)
Theorem cartan_matrix_diagonal (M : list (list Z)) (C : Matrix.t) (i : nat) :
  Matrix.cartan_matrix M = Ok C →
  i < length M →
  getitem2 (Matrix.M C) i i = Ok (PyAint (aint.init (Matrix.base C) (inl 2%Z)))
  ∧ aint.p (aint.init (Matrix.base C) (inl 2%Z)) = [2%Z]
  ∧ poly_eq_int (aint.p (aint.init (Matrix.base C) (inl 2%Z))) 2 = true.
Proof.
  intros HC Hi.
  destruct (cartan_matrix_Ok M C HC) as (m & _ & Hb & _ & _ & Hdiag & _).
  apply cyclotomic_monic in Hb as [Hlen _].
  split; [by apply getitem2_Ok, Hdiag|].
  rewrite aint_init_int_p by done. done.
Qed.

Lemma cartan_matrix_diagonal_witness :
  Matrix.cartan_matrix coxeter_237 = Ok cartan_237
  ∧ 1 < length coxeter_237
  ∧ getitem2 (Matrix.M cartan_237) 1 1
    = Ok (PyAint (aint.init (Matrix.base cartan_237) (inl 2%Z)))
  ∧ aint.p (aint.init (Matrix.base cartan_237) (inl 2%Z)) = [2%Z]
  ∧ poly_eq_int (aint.p (aint.init (Matrix.base cartan_237) (inl 2%Z))) 2 = true.
Proof.
  split; [vm_compute; reflexivity|]. split; [simpl; lia|].
  apply (cartan_matrix_diagonal coxeter_237 cartan_237 1);
    [vm_compute; reflexivity | simpl; lia].
Defined.

(** C9: when [cartan_matrix(M)] returns a matrix, the cells [i][j] and
    [j][i] exist and hold the same algebraic integer, for all [i] and [j]
    below the dimension of [M]. *)
Theorem cartan_matrix_symmetric (M : list (list Z)) (C : Matrix.t) (i j : nat) :
  Matrix.cartan_matrix M = Ok C →
  i < length M → j < length M →
  ∃ a, getitem2 (Matrix.M C) i j = Ok (PyAint a)
     ∧ getitem2 (Matrix.M C) j i = Ok (PyAint a).
Proof.
  intros HC Hi Hj.
  destruct (cartan_matrix_Ok M C HC) as (m & _ & _ & _ & _ & Hdiag & Hpairs).
  assert (∀ Mij v, cartan_offdiag (Matrix.base C) m Mij = Ok v → ∃ a, v = PyAint a)
    as Haint.
  { intros Mij v. unfold cartan_offdiag. simpl.
    destruct (0 <? 2 * Mij)%Z; [|intros [= <-]; eauto].
    intros H. apply bind_Ok in H as (z1 & _ & H).
    apply bind_Ok in H as (z2 & _ & [= <-]). eauto. }
  destruct (lt_eq_lt_dec i j) as [[Hlt|Heq]|Hgt]; [|subst j|].
  - destruct (Hpairs j i Hlt Hj) as (Mji & v & _ & Hv & Hji & Hij).
    destruct (Haint _ _ Hv) as [a ->]. exists a. by rewrite !getitem2_Ok.
  - eexists. rewrite !getitem2_Ok. split; by apply Hdiag.
  - destruct (Hpairs i j Hgt Hi) as (Mij & v & _ & Hv & Hij & Hji).
    destruct (Haint _ _ Hv) as [a ->]. exists a. by rewrite !getitem2_Ok.
Qed.

Lemma cartan_matrix_symmetric_witness :
  Matrix.cartan_matrix coxeter_237 = Ok cartan_237
  ∧ 1 < length coxeter_237 ∧ 2 < length coxeter_237
  ∧ ∃ a, getitem2 (Matrix.M cartan_237) 1 2 = Ok (PyAint a)
       ∧ getitem2 (Matrix.M cartan_237) 2 1 = Ok (PyAint a).
Proof.
  split; [vm_compute; reflexivity|]. split; [simpl; lia|]. split; [simpl; lia|].
  apply (cartan_matrix_symmetric coxeter_237 cartan_237 1 2);
    [vm_compute; reflexivity | simpl; lia | simpl; lia].
Defined.

(** ** The index of the cyclotomic field *)

(** C2, on the code: the first loop of [cartan_matrix] has no test on the
    Coxeter entry, so the pair of [[1,0],[0,1]] takes part in the fold, and
    the index computed is [lcm(2, 2·0) = 0], not 2. *)
Theorem cartan_index_infinite_order :
  Matrix.cartan_index coxeter_infinite = Ok (lcm 2 (2 * 0))
  ∧ lcm 2 (2 * 0) = 0%Z
  ∧ Matrix.cartan_index coxeter_infinite ≠ Ok 2%Z.
Proof. split; [done|]. split; [done|]. vm_compute. discriminate. Qed.

(** X20: the first loop of [cartan_matrix] folds every entry below the
    diagonal into the least common multiple, whatever its sign: one entry 0
    anywhere below the diagonal brings the index down to 0, whatever the
    other entries are. *)
Lemma cartan_index_zero_entry (M : list (list Z)) (m : Z) (i j : nat) :
  Matrix.cartan_index M = Ok m →
  j < i → i < length M → cell M i j = Some 0%Z →
  m = 0%Z.
Proof.
  intros Hm Hji Hi Hij. unfold Matrix.cartan_index in Hm.
  refine (for_range_inv (λ a m, i < a → m = 0%Z) _ _ _ _ Hm _ _ Hi); [lia|].
  intros a t t' Ha Ht Hrow Hia.
  assert ((i < a → t' = 0%Z) ∧ (a = i → j < a → t' = 0%Z)) as [H1 H2].
  { refine (for_range_inv
      (λ c u, (i < a → u = 0%Z) ∧ (a = i → j < c → u = 0%Z)) _ _ _ _ Hrow _ _).
    - split; [done | lia].
    - intros c u u' Hc [H1 H2] Hbody.
      apply bind_Ok in Hbody as (Mac & HMac & [= <-]). apply getitem2_Ok in HMac.
      split.
      + intros Hlt. rewrite H1 by done. done.
      + intros -> Hjc. destruct (decide (c = j)) as [->|Hne].
        * replace Mac with 0%Z by congruence. unfold lcm. apply Z.lcm_0_r.
        * rewrite H2 by (done || lia). done. }
  destruct (decide (a = i)) as [->|Hne]; [by apply H2|]. apply H1. lia.
Qed.

(** ** The (2, 3, 7) triangle group *)

(** C7: for the Coxeter matrix [[1,3,2],[3,1,7],[2,7,1]] the index computed
    is 84, the base is the 84th cyclotomic polynomial, of degree
    φ(84) = 24, the diagonal cells hold the constant polynomial 2, the cells
    [0][2] and [2][0] are zero, and the cells [0][1] and [1][2] are not. *)
Theorem cartan_237_scenario :
  Matrix.cartan_index coxeter_237 = Ok 84%Z
  ∧ Matrix.cartan_matrix coxeter_237 = Ok cartan_237
  ∧ cyclotomic 84 = Ok (Matrix.base cartan_237)
  ∧ degree (Matrix.base cartan_237) = 24
  ∧ totient 84 = 24
  ∧ (∀ i, i < 3 →
       cell (Matrix.M cartan_237) i i
       = Some (PyAint (aint.mk (Matrix.base cartan_237) [2%Z])))
  ∧ cell_is_zero (Matrix.M cartan_237) 0 2
  ∧ cell_is_zero (Matrix.M cartan_237) 2 0
  ∧ cell_is_nonzero (Matrix.M cartan_237) 0 1
  ∧ cell_is_nonzero (Matrix.M cartan_237) 1 2.
Proof.
  split; [vm_compute; reflexivity|]. split; [vm_compute; reflexivity|].
  split; [vm_compute; reflexivity|]. split; [vm_compute; reflexivity|].
  split; [vm_compute; reflexivity|]. split.
  { intros i Hi. destruct i as [|[|[|i]]]; [vm_compute; reflexivity..|lia]. }
  repeat split; eexists; (split; [vm_compute; reflexivity | vm_compute; reflexivity]).
Qed.

(** ** [cartan_matrix] returns on the Coxeter matrices of finite orders *)

Lemma coxeter_finite_cell (M : list (list Z)) (i j : nat) (x : Z) :
  coxeter_finite M = true → cell M i j = Some x → (0 < x)%Z.
Proof.
  unfold coxeter_finite, cell. intros Hall Hx.
  destruct (M !! i) as [row|] eqn:Hrow; [|done]. simpl in Hx.
  rewrite forallb_forall in Hall.
  specialize (Hall row). rewrite forallb_forall in Hall.
  apply Z.ltb_lt, Hall; apply list_elem_of_In; by eapply list_elem_of_lookup_2.
Qed.

(** The index is a positive common multiple of the doubled entries below the
    diagonal. *)
Lemma cartan_index_total (M : list (list Z)) :
  square (length M) M → coxeter_finite M = true →
  ∃ m, Matrix.cartan_index M = Ok m
    ∧ (0 < m)%Z
    ∧ ∀ i j x, j < i → i < length M → cell M i j = Some x → (2 * x | m)%Z.
Proof.
  intros Hsq Hfin. unfold Matrix.cartan_index.
  destruct (for_range_total
    (λ i m, (0 < m)%Z
       ∧ ∀ a c x, c < a → a < i → cell M a c = Some x → (2 * x | m)%Z)
    (length M)
    (λ i m, for_range i (λ j m, Mij ← getitem2 M i j; Ok (lcm m (2 * Mij))) m)
    2%Z) as (m & Hm & Hpos & Hdiv).
  - split; [lia|]. intros; lia.
  - intros i t Hi [Hpos Hdiv].
    destruct (for_range_total
      (λ j u, (0 < u)%Z
         ∧ ∀ a c x, c < a → a < i ∨ (a = i ∧ c < j) → cell M a c = Some x → (2 * x | u)%Z)
      i (λ j m, Mij ← getitem2 M i j; Ok (lcm m (2 * Mij))) t)
      as (u & Hu & Hupos & Hudiv).
    + split; [done|]. intros a c x Hca [Ha|[_ Hc]]; [by eapply Hdiv | lia].
    + intros j u Hj [Hupos Hudiv].
      destruct (square_cell _ _ i j Hsq) as [x Hx]; [lia..|].
      pose proof (coxeter_finite_cell M i j x Hfin Hx) as Hxpos.
      exists (lcm u (2 * x)). rewrite (proj2 (getitem2_Ok M i j x) Hx). simpl.
      split; [done|]. unfold lcm. split.
      * pose proof (Z.lcm_nonneg u (2 * x)).
        assert (Z.lcm u (2 * x) ≠ 0%Z); [|lia].
        rewrite Z.lcm_eq_0. lia.
      * intros a c y Hca Hbefore Hy.
        destruct (decide (a = i ∧ c = j)) as [[-> ->]|Hne].
        -- replace y with x by congruence. apply Z.divide_lcm_r.
        -- transitivity u; [|apply Z.divide_lcm_l].
           eapply Hudiv; [done| |done]. lia.
    + exists u. split; [done|]. split; [done|].
      intros a c x Hca Ha. apply Hudiv; [done|]. lia.
  - exists m. split; [done|]. split; [done|]. intros i j x Hji Hi. by apply Hdiv.
Qed.

(** In the field of index [m], the value for a finite order whose double
    divides [m] is computed without an index error. *)
Lemma cartan_offdiag_total (m x : Z) :
  (0 < m)%Z → (0 < x)%Z → (2 * x | m)%Z →
  ∃ z, list_setitem (replicate (Z.to_nat m) 0%Z) (m / (2 * x)) (-1)%Z = Ok z
     ∧ ∃ z', list_setitem z (m - m / (2 * x)) (-1)%Z = Ok z'.
Proof.
  intros Hm Hx Hdiv.
  assert (0 < m / (2 * x) < m)%Z as Hq.
  { split.
    - apply Z.div_str_pos. split; [lia|]. apply Z.divide_pos_le; [done|done].
    - apply Z.div_lt; lia. }
  unfold list_setitem. rewrite length_replicate, Z2Nat.id by lia.
  rewrite bool_decide_true by lia. eexists. split; [done|].
  rewrite length_insert, length_replicate, Z2Nat.id by lia.
  rewrite bool_decide_true by lia. eauto.
Qed.

(** X1: [cartan_matrix] raises nothing on a valid Coxeter matrix without
    infinite orders: the index is at least 1, so that the cyclotomic
    polynomial exists, both positions [m // 2x] and [m - m // 2x] lie within
    the coefficient vector, and every cell written lies within the array. *)
Lemma cartan_matrix_total (M : list (list Z)) :
  coxeter_matrix M = true → coxeter_finite M = true →
  ∃ C, Matrix.cartan_matrix M = Ok C.
Proof.
  intros HM Hfin. pose proof (coxeter_matrix_square M HM) as Hsq.
  destruct (cartan_index_total M Hsq Hfin) as (m & Hm & Hpos & Hdiv).
  unfold Matrix.cartan_matrix. rewrite Hm. simpl.
  unfold cyclotomic. destruct (Z.ltb_spec m 1) as [|_]; [lia|]. simpl.
  set (b := cyclotomic_loop _ _ _ _ _).
  destruct (zeros_like_square _ _ Hsq) as (Z0 & -> & HsqZ). simpl.
  destruct (for_range_total (λ _ T, square (length M) T) (length M)
    (λ i (T : grid), setitem2 T i i (PyAint (aint.init b (inl 2%Z)))) Z0)
    as (C1 & -> & HsqC1); [done| |].
  { intros i T Hi HsqT.
    destruct (setitem2_total T i i (PyAint (aint.init b (inl 2%Z)))) as [T' HT'].
    { by apply (square_cell (length M)). }
    exists T'. split; [done|]. by eapply setitem2_square. }
  simpl.
  match goal with |- context [for_range (length M) ?body C1] =>
    destruct (for_range_total (λ _ T, square (length M) T) (length M) body C1)
      as (C2 & -> & HsqC2); [done| |by eexists] end.
  intros i T Hi HsqT.
  apply (for_range_total (λ _ U, square (length M) U)); [done|].
  intros j U Hj HsqU.
  destruct (square_cell _ _ i j Hsq) as [x Hx]; [lia..|].
  pose proof (coxeter_finite_cell M i j x Hfin Hx) as Hxpos.
  rewrite (proj2 (getitem2_Ok M i j x) Hx). simpl.
  destruct (Z.ltb_spec 0 (2 * x)) as [_|]; [|lia].
  destruct (cartan_offdiag_total m x) as (z & Hz & z' & Hz');
    [done|done|by eapply Hdiv|].
  rewrite Hz. simpl. rewrite Hz'. simpl.
  destruct (setitem2_total U i j (PyAint (aint.init b (inr z')))) as [U1 HU1].
  { apply (square_cell (length M)); [done|lia..]. }
  rewrite HU1. simpl.
  pose proof (setitem2_square _ _ _ _ _ _ HU1 HsqU) as HsqU1.
  destruct (setitem2_total U1 j i (PyAint (aint.init b (inr z')))) as [U2 HU2].
  { apply (square_cell (length M)); [done|lia..]. }
  exists U2. split; [done|]. by eapply setitem2_square.
Qed.

(** ** [reflection_matrix] *)

Lemma reflection_cell_is_Some (C : Matrix.t) (k : Z) (i j : nat) :
  square_matrix C → i < Matrix.dim C → j < Matrix.dim C →
  is_Some (reflection_cell C k i j).
Proof.
  intros Hsq Hi Hj. unfold reflection_cell.
  repeat case_bool_decide; try done.
  destruct (square_cell _ _ i j Hsq Hi Hj) as [x ->]. done.
Qed.

(** Over a square array, [reflection_matrix] raises nothing and returns the
    matrix of the cells that its branches describe. *)
Lemma reflection_matrix_Ok (C : Matrix.t) (k : Z) :
  square_matrix C →
  ∃ R, Matrix.reflection_matrix C k = Ok R
    ∧ Matrix.base R = Matrix.base C
    ∧ Matrix.dim R = Matrix.dim C
    ∧ square_matrix R
    ∧ ∀ i j, i < Matrix.dim C → j < Matrix.dim C →
        cell (Matrix.M R) i j = reflection_cell C k i j.
Proof.
  intros Hsq. unfold Matrix.reflection_matrix.
  destruct (zeros_like_square _ _ Hsq) as (Z0 & -> & HsqZ). simpl.
  set (n := Matrix.dim C) in *. set (b := Matrix.base C).
  set (e := λ i j, default (PyInt 0) (reflection_cell C k i j)).
  match goal with |- context [for_range n ?body Z0] =>
    destruct (fill_grid n body e Z0 HsqZ) as (R & -> & HsqR & Hcells) end.
  { intros j T Hj HsqT. case_bool_decide as Hjk.
    - apply fill_column; [done..|]. intros i T' Hi HsqT'.
      unfold e, reflection_cell. rewrite (bool_decide_true _ Hjk).
      by case_bool_decide.
    - apply fill_column; [done..|]. intros i T' Hi HsqT'.
      unfold e, reflection_cell. rewrite (bool_decide_false _ Hjk).
      case_bool_decide as Hij; [done|]. case_bool_decide as Hik; [|done].
      destruct (square_cell _ _ i j Hsq Hi Hj) as [x Hx]. rewrite Hx. simpl.
      unfold Matrix.__getitem__, getitem_int. rewrite bool_decide_true by lia.
      replace (Z.to_nat k) with i by lia.
      unfold cell in Hx. unfold getitem.
      destruct (Matrix.M C !! i) as [row|]; [|done].
      simpl in *. by rewrite Hx. }
  simpl. eexists. split; [done|]. simpl.
  split; [done|]. split; [by apply square_length in HsqR|].
  split.
  { unfold square_matrix. simpl. by rewrite (square_length _ _ HsqR). }
  intros i j Hi Hj. rewrite Hcells by done. unfold e.
  by destruct (reflection_cell_is_Some C k i j Hsq Hi Hj) as [x ->].
Qed.

(** With an index [k] that no row and no column bears, every column takes
    the second branch and every row its first or last case. *)
Lemma reflection_matrix_outside (C : Matrix.t) (k : Z) :
  square_matrix C →
  ¬ (0 ≤ k < Z.of_nat (Matrix.dim C))%Z →
  Matrix.reflection_matrix C k
  = Ok (Matrix.__init__ (Matrix.base C) (identity_grid (Matrix.base C) (Matrix.dim C))).
Proof.
  intros Hsq Hk.
  destruct (reflection_matrix_Ok C k Hsq) as (R & -> & Hb & Hd & HsqR & Hcells).
  f_equal. destruct R as [b g d]. simpl in *. subst b d.
  unfold Matrix.__init__. f_equal.
  - apply (square_ext (Matrix.dim C)); [done|apply identity_grid_square|].
    intros i j Hi Hj. rewrite Hcells, identity_grid_cell by done.
    unfold reflection_cell.
    rewrite (bool_decide_false (Z.of_nat j = k)) by lia.
    rewrite (bool_decide_false (Z.of_nat i = k)) by lia.
    by case_bool_decide.
  - unfold identity_grid. by rewrite grid_of_length.
Qed.

(** C10: for a square Cartan matrix [C] and an integer [k ≥ C.dim],
    [reflection_matrix(C, k)] raises nothing and returns the identity matrix
    over the base of [C]: the lifted 1 on the diagonal and the lifted 0
    everywhere else. *)
Theorem reflection_matrix_beyond_dim (C : Matrix.t) (k : Z) :
  square_matrix C →
  (Z.of_nat (Matrix.dim C) ≤ k)%Z →
  Matrix.reflection_matrix C k
  = Ok (Matrix.__init__ (Matrix.base C) (identity_grid (Matrix.base C) (Matrix.dim C))).
Proof. intros Hsq Hk. apply reflection_matrix_outside; [done | lia]. Qed.

Lemma reflection_matrix_beyond_dim_witness :
  square_matrix cartan_237
  ∧ (Z.of_nat (Matrix.dim cartan_237) ≤ 3)%Z
  ∧ Matrix.reflection_matrix cartan_237 3
    = Ok (Matrix.__init__ (Matrix.base cartan_237)
            (identity_grid (Matrix.base cartan_237) (Matrix.dim cartan_237))).
Proof.
  split; [vm_compute; reflexivity|]. split; [simpl; lia|].
  apply (reflection_matrix_beyond_dim cartan_237 3);
    [vm_compute; reflexivity | simpl; lia].
Defined.

(** C5, as the code has it: there is no range check on [k]; with [k] outside
    [0 ≤ k < C.dim] no branch compares equal to [k], nothing is raised, and
    the result is the identity matrix over the base of [C]. *)
Theorem reflection_matrix_unchecked_index (C : Matrix.t) (k : Z) :
  square_matrix C →
  ¬ (0 ≤ k < Z.of_nat (Matrix.dim C))%Z →
  ∃ R, Matrix.reflection_matrix C k = Ok R
    ∧ Matrix.base R = Matrix.base C
    ∧ Matrix.M R = identity_grid (Matrix.base C) (Matrix.dim C).
Proof.
  intros Hsq Hk. rewrite reflection_matrix_outside by done.
  eexists. split; [done|]. split; done.
Qed.

Lemma reflection_matrix_unchecked_index_witness :
  square_matrix cartan_237
  ∧ ¬ (0 ≤ -1 < Z.of_nat (Matrix.dim cartan_237))%Z
  ∧ ∃ R, Matrix.reflection_matrix cartan_237 (-1) = Ok R
      ∧ Matrix.base R = Matrix.base cartan_237
      ∧ Matrix.M R = identity_grid (Matrix.base cartan_237) (Matrix.dim cartan_237).
Proof.
  split; [vm_compute; reflexivity|]. split; [lia|].
  apply (reflection_matrix_unchecked_index cartan_237 (-1));
    [vm_compute; reflexivity | lia].
Defined.

(** C5, as stated, fails: a Cartan matrix and an index out of range for
    which [reflection_matrix] raises no error. *)
Lemma reflection_matrix_index_error_refuted :
  ¬ (∀ (M : list (list Z)) (C : Matrix.t) (k : Z),
       coxeter_matrix M = true →
       Matrix.cartan_matrix M = Ok C →
       ¬ (0 ≤ k < Z.of_nat (Matrix.dim C))%Z →
       ∃ e, Matrix.reflection_matrix C k = Raise e).
Proof.
  intros H.
  destruct (H coxeter_237 cartan_237 3%Z) as [e He].
  - vm_compute. reflexivity.
  - vm_compute. reflexivity.
  - vm_compute. intros [_ Hlt]. discriminate Hlt.
  - vm_compute in He. discriminate He.
Qed.

(** ** A reflection matrix times itself *)

Section involution.

Variable C : Matrix.t.
Variable k : nat.

Let n := Matrix.dim C.
Let b := Matrix.base C.
Let c := cell_aint (Matrix.M C).
Let r := reflection_aint b c k.

Hypothesis C_square : square_matrix C.
Hypothesis base_degree : 2 ≤ length b.
Hypothesis C_cells :
  ∀ i j, i < n → j < n → ∃ a, cell (Matrix.M C) i j = Some (PyAint a) ∧ reduced b a.
Hypothesis k_range : k < n.

Lemma c_cell (i j : nat) :
  i < n → j < n → cell (Matrix.M C) i j = Some (PyAint (c i j)) ∧ reduced b (c i j).
Proof.
  intros Hi Hj. destruct (C_cells i j Hi Hj) as (a & Ha & Hred).
  unfold c, cell_aint. by rewrite Ha.
Qed.

Lemma r_reduced (i j : nat) : i < n → j < n → reduced b (r i j).
Proof.
  intros Hi Hj. unfold r, reflection_aint.
  repeat case_bool_decide; try (by apply reduced_init).
  apply reduced_neg; [done|]. by apply c_cell.
Qed.

Lemma reflection_cell_aint (i j : nat) :
  i < n → j < n → reflection_cell C (Z.of_nat k) i j = Some (PyAint (r i j)).
Proof.
  intros Hi Hj. unfold reflection_cell, r, reflection_aint. fold b.
  destruct (decide (j = k)) as [->|Hjk].
  - rewrite !(bool_decide_true (_ = _ :> Z)), (bool_decide_true (k = k)) by done.
    destruct (decide (i = k)) as [->|Hik].
    + by rewrite !bool_decide_true.
    + by rewrite !bool_decide_false by lia.
  - rewrite (bool_decide_false (_ = _ :> Z)), (bool_decide_false (j = k)) by lia.
    case_bool_decide; [done|].
    destruct (decide (i = k)) as [->|Hik].
    + rewrite !bool_decide_true by done.
      by rewrite (proj1 (c_cell k j Hi Hj)).
    + by rewrite !bool_decide_false by lia.
Qed.

(** The rows that the reflection leaves alone. *)
Lemma r_row_other (i l : nat) :
  i ≠ k → r i l = if bool_decide (l = i) then aint.init b (inl 1%Z) else aint.init b (inl 0%Z).
Proof.
  intros Hik. unfold r, reflection_aint.
  repeat case_bool_decide; try done; congruence.
Qed.

Lemma r_column_k (l : nat) :
  r l k = if bool_decide (l = k) then aint.init b (inl (-1)%Z) else aint.init b (inl 0%Z).
Proof. unfold r, reflection_aint. by rewrite bool_decide_true. Qed.

Lemma r_column_other (l j : nat) :
  j ≠ k → l ≠ j → l ≠ k → r l j = aint.init b (inl 0%Z).
Proof. intros. unfold r, reflection_aint. by rewrite !bool_decide_false. Qed.

Lemma r_diagonal (j : nat) : j ≠ k → r j j = aint.init b (inl 1%Z).
Proof.
  intros. unfold r, reflection_aint. by rewrite bool_decide_false, bool_decide_true.
Qed.

Lemma r_row_k (j : nat) : j ≠ k → r k j = aint.neg (c k j).
Proof.
  intros. unfold r, reflection_aint.
  by rewrite !bool_decide_false, bool_decide_true by (done || lia).
Qed.

(** The diagonal of the square of the reflection matrix. *)
Lemma square_diagonal (i : nat) :
  i < n → sum_of_products (r i) (λ l, r l i) n = aint.init b (inl 1%Z).
Proof.
  intros Hi. destruct (decide (i = k)) as [->|Hik].
  - apply (sum_of_products_single b base_degree _ _ n k); [done|by apply reduced_init| |].
    + intros l Hl Hlk. rewrite r_column_k, bool_decide_false by done.
      apply mul_zero_r. by apply r_reduced.
    + rewrite r_column_k, bool_decide_true by done.
      by apply mul_minus_one_minus_one.
  - apply (sum_of_products_single b base_degree _ _ n i); [done|by apply reduced_init| |].
    + intros l Hl Hli. by rewrite r_row_other, bool_decide_false.
    + rewrite r_diagonal by done. apply mul_one_l; [done | by apply reduced_init].
Qed.

(** The cells below the diagonal of the square of the reflection matrix. *)
Lemma square_lower (i j : nat) :
  j < i → i < n → sum_of_products (r i) (λ l, r l j) n = aint.init b (inl 0%Z).
Proof.
  intros Hji Hi. destruct (decide (i = k)) as [->|Hik].
  - destruct (c_cell k j) as [_ Hc]; [lia..|].
    apply (sum_of_products_pair b base_degree _ _ n j k (aint.neg (c k j)) (c k j));
      [done|done|by apply reduced_neg| | | |].
    + intros l Hl Hlj Hlk. rewrite (r_column_other l j) by lia.
      apply mul_zero_r. by apply r_reduced.
    + rewrite r_diagonal, r_row_k by lia. apply mul_one_r; [done|].
      by apply reduced_neg.
    + rewrite r_column_k, bool_decide_true, r_row_k by lia.
      by apply mul_minus_one_neg.
    + by apply add_neg_l.
  - apply (sum_of_products_single b base_degree _ _ n i); [done|by apply reduced_init| |].
    + intros l Hl Hli. by rewrite r_row_other, bool_decide_false.
    + rewrite (r_row_other i i), bool_decide_true by done.
      rewrite mul_one_l; [|done|apply r_reduced; lia].
      rewrite r_row_other, bool_decide_false by lia. done.
Qed.


(** The cells above the diagonal of the square of the reflection matrix. *)
Lemma square_upper (i j : nat) :
  i < j → j < n → sum_of_products (r i) (λ l, r l j) n = aint.init b (inl 0%Z).
Proof.
  intros Hij Hj. destruct (decide (i = k)) as [->|Hik].
  - destruct (c_cell k j) as [_ Hc]; [lia..|].
    apply (sum_of_products_pair b base_degree _ _ n k j (c k j) (aint.neg (c k j)));
      [done|done|done| | | |].
    + intros l Hl Hlk Hlj. rewrite (r_column_other l j) by lia.
      apply mul_zero_r. by apply r_reduced.
    + rewrite r_column_k, bool_decide_true, r_row_k by lia.
      by apply mul_minus_one_neg.
    + rewrite r_diagonal, r_row_k by lia. apply mul_one_r; [done|].
      by apply reduced_neg.
    + by apply add_neg_r.
  - apply (sum_of_products_single b base_degree _ _ n i); [lia|by apply reduced_init| |].
    + intros l Hl Hli. by rewrite r_row_other, bool_decide_false.
    + rewrite (r_row_other i i), bool_decide_true by done.
      rewrite mul_one_l; [|done|apply r_reduced; lia].
      rewrite r_row_other, bool_decide_false by lia. done.
Qed.

(** The reflection matrix times itself is the identity matrix. *)
Lemma reflection_square_exact :
  ∃ R, Matrix.reflection_matrix C (Z.of_nat k) = Ok R
    ∧ Matrix.__mul__ R (Matrix.OMatrix R) = Ok (Matrix.PMatrix (identity_matrix b n)).
Proof.
  destruct (reflection_matrix_Ok C (Z.of_nat k) C_square)
    as (R & HR & HbR & HdR & HsqR & Hcells).
  fold n in HdR, Hcells. unfold square_matrix in HsqR. rewrite HdR in HsqR.
  assert (Matrix.M R = grid_of n (λ i j, PyAint (r i j))) as HMR.
  { apply square_grid_of; [done|]. intros i j Hi Hj.
    rewrite Hcells by done. by apply reflection_cell_aint. }
  assert (np_dot (Matrix.M R) (Matrix.M R) = Ok (identity_grid b n)) as Hdot.
  { rewrite HMR.
    rewrite (np_dot_grid_of n _ _
      (λ i j, PyAint (sum_of_products (r i) (λ l, r l j) n))).
    - f_equal. apply grid_of_ext. intros i j Hi Hj. f_equal.
      destruct (lt_eq_lt_dec i j) as [[Hlt|Heq]|Hgt].
      + rewrite bool_decide_false by lia. by apply square_upper.
      + subst j. rewrite bool_decide_true by done. by apply square_diagonal.
      + rewrite bool_decide_false by lia. by apply square_lower.
    - intros i j Hi Hj. apply (vdot_aint (r i) (λ l, r l j)). lia. }
  exists R. split; [done|].
  unfold Matrix.__mul__. rewrite bool_decide_true by done. rewrite Hdot.
  destruct (Matrix.M R) eqn:HM; [|by rewrite HbR].
  apply (f_equal length) in HMR. rewrite grid_of_length in HMR. simpl in HMR. lia.
Qed.

End involution.



(** * Further properties *)

(** ** Loops and arrays *)

(** Two bodies that agree below the bound run the same loop. *)
Lemma for_range_ext {S : Type} (n : nat) (body1 body2 : nat → S → result S) (s : S) :
  (∀ i s', i < n → body1 i s' = body2 i s') →
  for_range n body1 s = for_range n body2 s.
Proof.
  induction n as [|n IH]; intros Hext; [done|].
  rewrite !for_range_S, IH by (intros; apply Hext; lia).
  destruct (for_range n body2 s) as [s'|e]; simpl; [apply Hext; lia | done].
Qed.

Lemma cell_getitem2 {A : Type} (g g' : list (list A)) (i j : nat) :
  cell g i j = cell g' i j → getitem2 g i j = getitem2 g' i j.
Proof.
  intros H. destruct (getitem2 g' i j) as [x|e] eqn:Hg'.
  - apply getitem2_Ok. rewrite H. by apply getitem2_Ok.
  - destruct (getitem2 g i j) as [y|e'] eqn:Hg.
    + apply getitem2_Ok in Hg. rewrite H in Hg. apply getitem2_Ok in Hg. congruence.
    + unfold getitem2, getitem in *.
      destruct (g !! i) as [r|], (g' !! i) as [r'|]; simpl in *;
        repeat case_match; congruence.
Qed.

(** ** The invariant of a [Matrix] *)

Lemma reduced_cell_spec (b : poly) (x : pyobj) :
  reduced_cell b x = true ↔ ∃ a, x = PyAint a ∧ reduced b a.
Proof.
  unfold reduced_cell, reduced. destruct x as [n|a].
  - split; [done | by intros (a & [=] & _)].
  - rewrite !andb_true_iff, !bool_decide_eq_true, Nat.ltb_lt. split.
    + intros [[Hb Ht] Hl]. eauto.
    + intros (a' & [= <-] & Hb & Ht & Hl). done.
Qed.

(** What the invariant says, cell by cell. *)
Lemma matrix_ok_spec (A : Matrix.t) :
  matrix_ok A = true ↔
  2 ≤ length (Matrix.base A)
  ∧ square_matrix A
  ∧ ∀ i j, i < Matrix.dim A → j < Matrix.dim A →
      ∃ a, cell (Matrix.M A) i j = Some (PyAint a) ∧ reduced (Matrix.base A) a.
Proof.
  unfold matrix_ok. rewrite !andb_true_iff, Nat.leb_le, Nat.eqb_eq, forallb_forall.
  split.
  - intros [[Hb Hlen] Hrows].
    assert (square_matrix A) as Hsq.
    { unfold square_matrix, square. apply list_eq. intros i.
      rewrite list_lookup_fmap.
      destruct (Matrix.M A !! i) as [row|] eqn:Hrow; simpl.
      - rewrite lookup_replicate_2 by (rewrite <- Hlen; by eapply lookup_lt_Some).
        f_equal. apply Nat.eqb_eq.
        eapply proj1, andb_true_iff, Hrows, list_elem_of_In, list_elem_of_lookup_2, Hrow.
      - symmetry. apply lookup_replicate_None. apply lookup_ge_None in Hrow. lia. }
    split; [done|]. split; [done|]. intros i j Hi Hj.
    destruct (square_cell _ _ i j Hsq Hi Hj) as [x Hx].
    unfold cell in Hx. destruct (Matrix.M A !! i) as [row|] eqn:Hrow; [|done].
    simpl in Hx.
    assert (reduced_cell (Matrix.base A) x = true) as Hred.
    { assert (forallb (reduced_cell (Matrix.base A)) row = true) as Hall.
      { eapply proj2, andb_true_iff, Hrows, list_elem_of_In, list_elem_of_lookup_2, Hrow. }
      rewrite forallb_forall in Hall.
      eapply Hall, list_elem_of_In, list_elem_of_lookup_2, Hx. }
    apply reduced_cell_spec in Hred as (a & -> & Hred).
    exists a. split; [|done]. unfold cell. by rewrite Hrow.
  - intros (Hb & Hsq & Hcells).
    pose proof (square_length _ _ Hsq) as Hlen.
    split; [done|]. intros row Hrow.
    apply list_elem_of_In, list_elem_of_lookup in Hrow as [i Hrow].
    pose proof (square_row _ _ _ _ Hsq Hrow) as Hlr.
    apply andb_true_iff. split; [by apply Nat.eqb_eq|].
    apply forallb_forall. intros x Hx.
    apply list_elem_of_In, list_elem_of_lookup in Hx as [j Hx].
    destruct (Hcells i j) as (a & Ha & Hred).
    { rewrite <- Hlen. by eapply lookup_lt_Some. }
    { rewrite <- Hlr. by eapply lookup_lt_Some. }
    apply reduced_cell_spec. exists a. split; [|done].
    unfold cell in Ha. rewrite Hrow in Ha. simpl in Ha. congruence.
Qed.

Lemma matrix_ok_aint_cells (A : Matrix.t) :
  matrix_ok A = true → aint_cells (Matrix.M A) = true.
Proof.
  unfold matrix_ok, aint_cells. rewrite !andb_true_iff, !forallb_forall.
  intros [_ Hrows] row Hrow. specialize (Hrows row Hrow).
  apply andb_true_iff in Hrows as [_ Hall]. rewrite forallb_forall in Hall.
  apply forallb_forall. intros x Hx. specialize (Hall x Hx).
  by destruct x.
Qed.

(** ** More on [cartan_matrix] *)

(** X7: the Cartan matrix of a valid Coxeter matrix meets the invariant of a
    [Matrix]: it is square, of the dimension of the input, and each of its
    cells is an algebraic integer in reduced form over the base of the
    matrix, which has degree at least 1. *)
Theorem cartan_matrix_ok (M : list (list Z)) (C : Matrix.t) :
  coxeter_matrix M = true →
  Matrix.cartan_matrix M = Ok C →
  matrix_ok C = true ∧ Matrix.dim C = length M.
Proof.
  intros HM HC.
  destruct (cartan_matrix_Ok M C HC) as (m & _ & Hb & Hdim & _).
  apply cyclotomic_monic in Hb as [Hlen _].
  split; [|done]. apply matrix_ok_spec.
  split; [done|]. split; [by eapply cartan_matrix_square|].
  intros i j Hi Hj. apply (cartan_matrix_cells M); [done|lia..].
Qed.

Lemma cartan_matrix_ok_witness :
  coxeter_matrix coxeter_237 = true
  ∧ Matrix.cartan_matrix coxeter_237 = Ok cartan_237
  ∧ matrix_ok cartan_237 = true ∧ Matrix.dim cartan_237 = length coxeter_237.
Proof.
  split; [vm_compute; reflexivity|]. split; [vm_compute; reflexivity|].
  apply (cartan_matrix_ok coxeter_237 cartan_237); vm_compute; reflexivity.
Defined.

Lemma cartan_index_least (M : list (list Z)) (m c : Z) :
  Matrix.cartan_index M = Ok m →
  (2 | c)%Z →
  (∀ i j x, j < i → i < length M → cell M i j = Some x → (2 * x | c)%Z) →
  (m | c)%Z.
Proof.
  intros Hm H2 Hc. unfold Matrix.cartan_index in Hm.
  refine (for_range_inv (λ _ u, (u | c)%Z) _ _ _ _ Hm H2 _).
  intros i t t' Hi Ht Hrow.
  refine (for_range_inv (λ _ u, (u | c)%Z) _ _ _ _ Hrow Ht _).
  intros j u u' Hj Hu Hbody.
  apply bind_Ok in Hbody as (x & Hx & [= <-]). apply getitem2_Ok in Hx.
  apply Z.lcm_least; [done|]. by eapply Hc.
Qed.

(** X2: on a square matrix of positive entries the first loop of
    [cartan_matrix] returns the least common multiple of 2 and of the
    doubled entries below the diagonal: a positive number that each of them
    divides and that divides each of their common multiples. *)
Theorem cartan_index_is_lcm (M : list (list Z)) :
  coxeter_matrix M = true → coxeter_finite M = true →
  ∃ m, Matrix.cartan_index M = Ok m
    ∧ (0 < m)%Z
    ∧ (2 | m)%Z
    ∧ (∀ i j x, j < i → i < length M → cell M i j = Some x → (2 * x | m)%Z)
    ∧ ∀ c, (2 | c)%Z →
        (∀ i j x, j < i → i < length M → cell M i j = Some x → (2 * x | c)%Z) →
        (m | c)%Z.
Proof.
  intros HM Hfin.
  destruct (cartan_index_total M (coxeter_matrix_square M HM) Hfin)
    as (m & Hm & Hpos & Hdiv).
  exists m. split; [done|]. split; [done|]. split; [|split; [done|]].
  - unfold Matrix.cartan_index in Hm.
    refine (for_range_inv (λ _ u, (2 | u)%Z) _ _ _ _ Hm _ _); [done|].
    intros i t t' Hi Ht Hrow.
    refine (for_range_inv (λ _ u, (2 | u)%Z) _ _ _ _ Hrow Ht _).
    intros j u u' Hj Hu Hbody.
    apply bind_Ok in Hbody as (x & Hx & [= <-]).
    transitivity u; [done | apply Z.divide_lcm_l].
  - intros c. by apply cartan_index_least.
Qed.

Lemma cartan_index_is_lcm_witness :
  coxeter_matrix coxeter_237 = true ∧ coxeter_finite coxeter_237 = true
  ∧ ∃ m, Matrix.cartan_index coxeter_237 = Ok m
      ∧ (0 < m)%Z
      ∧ (2 | m)%Z
      ∧ (∀ i j x, j < i → i < length coxeter_237 →
           cell coxeter_237 i j = Some x → (2 * x | m)%Z)
      ∧ ∀ c, (2 | c)%Z →
          (∀ i j x, j < i → i < length coxeter_237 →
             cell coxeter_237 i j = Some x → (2 * x | c)%Z) →
          (m | c)%Z.
Proof.
  split; [vm_compute; reflexivity|]. split; [vm_compute; reflexivity|].
  apply (cartan_index_is_lcm coxeter_237); vm_compute; reflexivity.
Defined.

Lemma cartan_matrix_index_positive (M : list (list Z)) (C : Matrix.t) (m : Z) :
  Matrix.cartan_matrix M = Ok C → Matrix.cartan_index M = Ok m → (1 ≤ m)%Z.
Proof.
  intros HC Hm. destruct (cartan_matrix_Ok M C HC) as (m' & Hm' & Hb & _).
  replace m' with m in Hb by congruence.
  unfold cyclotomic in Hb. destruct (Z.ltb_spec m 1); [done | lia].
Qed.

(** X3: for a pair of generators whose Coxeter entry is not positive (an
    infinite order), the cell of the Cartan matrix and its mirror image
    both hold [aint(b, -2)], whose polynomial is the constant -2. *)
Theorem cartan_matrix_infinite_order (M : list (list Z)) (C : Matrix.t)
    (i j : nat) (x : Z) :
  Matrix.cartan_matrix M = Ok C →
  j < i → i < length M →
  cell M i j = Some x → (x ≤ 0)%Z →
  getitem2 (Matrix.M C) i j = Ok (PyAint (aint.init (Matrix.base C) (inl (-2)%Z)))
  ∧ getitem2 (Matrix.M C) j i = Ok (PyAint (aint.init (Matrix.base C) (inl (-2)%Z)))
  ∧ aint.p (aint.init (Matrix.base C) (inl (-2)%Z)) = [(-2)%Z].
Proof.
  intros HC Hji Hi Hx Hle.
  destruct (cartan_matrix_Ok M C HC) as (m & _ & Hb & _ & _ & _ & Hpairs).
  apply cyclotomic_monic in Hb as [Hlen _].
  destruct (Hpairs i j Hji Hi) as (x' & v & Hx' & Hv & Hij & Hji').
  replace x' with x in Hv by congruence.
  unfold cartan_offdiag in Hv. simpl in Hv.
  destruct (Z.ltb_spec 0 (2 * x)) as [|_]; [lia|]. injection Hv as <-.
  rewrite !getitem2_Ok. split; [done|]. split; [done|].
  by apply aint_init_int_p.
Qed.

Lemma cartan_matrix_infinite_order_witness :
  Matrix.cartan_matrix coxeter_free = Ok cartan_free
  ∧ 0 < 1 ∧ 1 < length coxeter_free
  ∧ cell coxeter_free 1 0 = Some (-1)%Z ∧ (-1 ≤ 0)%Z
  ∧ getitem2 (Matrix.M cartan_free) 1 0
    = Ok (PyAint (aint.init (Matrix.base cartan_free) (inl (-2)%Z)))
  ∧ getitem2 (Matrix.M cartan_free) 0 1
    = Ok (PyAint (aint.init (Matrix.base cartan_free) (inl (-2)%Z)))
  ∧ aint.p (aint.init (Matrix.base cartan_free) (inl (-2)%Z)) = [(-2)%Z].
Proof.
  split; [vm_compute; reflexivity|]. split; [lia|]. split; [simpl; lia|].
  split; [reflexivity|]. split; [lia|].
  apply (cartan_matrix_infinite_order coxeter_free cartan_free 1 0 (-1)%Z);
    [vm_compute; reflexivity | lia | simpl; lia | reflexivity | lia].
Defined.

Lemma list_setitem_Ok (z z' : list Z) (i v : Z) :
  list_setitem z i v = Ok z' → (0 ≤ i)%Z →
  Z.to_nat i < length z ∧ z' = <[Z.to_nat i := v]> z.
Proof.
  unfold list_setitem. intros H Hi.
  case_bool_decide as H1; [injection H as <-; split; [lia|done]|].
  case_bool_decide as H2; [lia | done].
Qed.

(** X4: for a pair of generators of finite order [x > 0], in the field of
    index [m], the cell of the Cartan matrix and its mirror image both hold
    [aint(b, z)] for the vector [z] of [m] coefficients that are 0 but for
    -1 at the positions [m // 2x] and [m - m // 2x], both within range:
    minus the sum of a [2x]-th root of unity and of its inverse. *)
Theorem cartan_matrix_finite_order (M : list (list Z)) (C : Matrix.t)
    (i j : nat) (x : Z) :
  Matrix.cartan_matrix M = Ok C →
  j < i → i < length M →
  cell M i j = Some x → (0 < x)%Z →
  ∃ m p q,
    Matrix.cartan_index M = Ok (Z.of_nat m)
    ∧ Z.of_nat p = (Z.of_nat m / (2 * x))%Z
    ∧ Z.of_nat q = (Z.of_nat m - Z.of_nat m / (2 * x))%Z
    ∧ p < m ∧ q < m
    ∧ getitem2 (Matrix.M C) i j
      = Ok (PyAint (aint.init (Matrix.base C) (inr (two_roots m p q))))
    ∧ getitem2 (Matrix.M C) j i
      = Ok (PyAint (aint.init (Matrix.base C) (inr (two_roots m p q)))).
Proof.
  intros HC Hji Hi Hx Hpos.
  destruct (cartan_matrix_Ok M C HC) as (m & Hm & _ & _ & _ & _ & Hpairs).
  pose proof (cartan_matrix_index_positive M C m HC Hm) as Hm1.
  destruct (Hpairs i j Hji Hi) as (x' & v & Hx' & Hv & Hij & Hji').
  replace x' with x in Hv by congruence.
  unfold cartan_offdiag in Hv. simpl in Hv.
  destruct (Z.ltb_spec 0 (2 * x)) as [_|]; [|lia].
  apply bind_Ok in Hv as (z1 & Hz1 & Hv). apply bind_Ok in Hv as (z2 & Hz2 & [= <-]).
  assert (0 ≤ m / (2 * x) ≤ m)%Z as Hq.
  { split; [apply Z.div_pos; lia|]. apply Z.div_le_upper_bound; nia. }
  apply list_setitem_Ok in Hz1 as [Hp ->]; [|lia].
  apply list_setitem_Ok in Hz2 as [Hq' ->]; [|lia].
  rewrite length_replicate in Hp. rewrite length_insert, length_replicate in Hq'.
  exists (Z.to_nat m), (Z.to_nat (m / (2 * x))), (Z.to_nat (m - m / (2 * x))).
  rewrite !Z2Nat.id by lia. rewrite !getitem2_Ok. done.
Qed.

Lemma cartan_matrix_finite_order_witness :
  Matrix.cartan_matrix coxeter_237 = Ok cartan_237
  ∧ 1 < 2 ∧ 2 < length coxeter_237
  ∧ cell coxeter_237 2 1 = Some 7%Z ∧ (0 < 7)%Z
  ∧ ∃ m p q,
      Matrix.cartan_index coxeter_237 = Ok (Z.of_nat m)
      ∧ Z.of_nat p = (Z.of_nat m / (2 * 7))%Z
      ∧ Z.of_nat q = (Z.of_nat m - Z.of_nat m / (2 * 7))%Z
      ∧ p < m ∧ q < m
      ∧ getitem2 (Matrix.M cartan_237) 2 1
        = Ok (PyAint (aint.init (Matrix.base cartan_237) (inr (two_roots m p q))))
      ∧ getitem2 (Matrix.M cartan_237) 1 2
        = Ok (PyAint (aint.init (Matrix.base cartan_237) (inr (two_roots m p q)))).
Proof.
  split; [vm_compute; reflexivity|]. split; [lia|]. split; [simpl; lia|].
  split; [reflexivity|]. split; [lia|].
  apply (cartan_matrix_finite_order coxeter_237 cartan_237 2 1 7%Z);
    [vm_compute; reflexivity | lia | simpl; lia | reflexivity | lia].
Defined.

Lemma zeros_row_length {A B : Type} (r : list A) (r' : list B) :
  length r = length r' → map (λ _, PyInt 0) r = map (λ _, PyInt 0) r'.
Proof.
  revert r'. induction r as [|x r IH]; intros [|y r'] H; try done.
  simpl in *. f_equal. apply IH. lia.
Qed.

Lemma rectangular_shape {A B : Type} (g : list (list A)) (g' : list (list B)) :
  map length g = map length g' → rectangular g = rectangular g'.
Proof.
  intros H. unfold rectangular.
  assert (ncols g = ncols g') as ->.
  { destruct g, g'; try done. simpl in *. congruence. }
  generalize (ncols g'). revert g' H.
  induction g as [|r g IH]; intros [|r' g'] H n; try done.
  simpl in *. injection H as H1 H2. rewrite H1. f_equal. by apply IH.
Qed.

Lemma zeros_like_shape {A B : Type} (g : list (list A)) (g' : list (list B)) :
  map length g = map length g' → zeros_like g = zeros_like g'.
Proof.
  intros H. unfold zeros_like. rewrite (rectangular_shape g g' H).
  destruct (rectangular g'); [|done]. f_equal.
  revert g' H. induction g as [|r g IH]; intros [|r' g'] H; try done.
  simpl in *. injection H as H1 H2. f_equal; [by apply zeros_row_length | by apply IH].
Qed.

Lemma same_lower_triangle_spec (M M' : list (list Z)) :
  same_lower_triangle M M' = true ↔
  ∀ i j, j < i → i < length M → cell M i j = cell M' i j.
Proof.
  unfold same_lower_triangle. rewrite forallb_forall. split.
  - intros H i j Hji Hi.
    assert (In i (seq 0 (length M))) as Hin by (apply in_seq; lia).
    apply H in Hin. rewrite forallb_forall in Hin.
    eapply bool_decide_eq_true_1. apply Hin. apply in_seq. lia.
  - intros H i Hi. apply in_seq in Hi. apply forallb_forall. intros j Hj.
    apply in_seq in Hj. apply bool_decide_eq_true_2. apply H; lia.
Qed.

(** X5: [cartan_matrix] reads the shape of its argument and the entries
    strictly below the diagonal, nothing else: on two arguments of one shape
    that agree below the diagonal it returns the same matrix, or raises the
    same error.  The diagonal and the upper triangle are never looked at. *)
Theorem cartan_matrix_lower_triangle (M M' : list (list Z)) :
  map length M = map length M' →
  same_lower_triangle M M' = true →
  Matrix.cartan_matrix M = Matrix.cartan_matrix M'.
Proof.
  intros Hshape Hlow.
  pose proof (proj1 (same_lower_triangle_spec M M') Hlow) as Hcell.
  assert (length M = length M') as Hlen.
  { apply (f_equal length) in Hshape. by rewrite !length_map in Hshape. }
  assert (Matrix.cartan_index M = Matrix.cartan_index M') as Hidx.
  { unfold Matrix.cartan_index. rewrite <- Hlen.
    apply for_range_ext. intros i m Hi.
    apply for_range_ext. intros j m' Hj.
    by rewrite (cell_getitem2 M M' i j (Hcell i j Hj Hi)). }
  unfold Matrix.cartan_matrix. rewrite Hidx, <- Hlen.
  destruct (Matrix.cartan_index M') as [m|e]; [|done]. simpl.
  destruct (cyclotomic m) as [b|e]; [|done]. simpl.
  rewrite (zeros_like_shape M M' Hshape).
  destruct (zeros_like M') as [Z0|e]; [|done]. simpl.
  match goal with |- context [for_range _ ?body Z0] =>
    destruct (for_range (length M) body Z0) as [C1|e] end; [|done]. simpl.
  f_equal. apply for_range_ext. intros i T Hi.
  apply for_range_ext. intros j T' Hj.
  by rewrite (cell_getitem2 M M' i j (Hcell i j Hj Hi)).
Qed.

Lemma cartan_matrix_lower_triangle_witness :
  map length coxeter_237 = map length [[0; 5; 5]; [3; -4; 5]; [2; 7; 0]]%Z
  ∧ same_lower_triangle coxeter_237 [[0; 5; 5]; [3; -4; 5]; [2; 7; 0]]%Z = true
  ∧ Matrix.cartan_matrix coxeter_237
    = Matrix.cartan_matrix [[0; 5; 5]; [3; -4; 5]; [2; 7; 0]]%Z.
Proof.
  split; [reflexivity|]. split; [vm_compute; reflexivity|].
  apply (cartan_matrix_lower_triangle coxeter_237); [reflexivity | vm_compute; reflexivity].
Defined.

(** X6: [cartan_matrix] asks no square argument.  When it returns, the rows
    of its argument have one length, which is at least the number of rows;
    the matrix returned has the shape of the argument and its dimension is
    the number of rows. *)
Theorem cartan_matrix_shape (M : list (list Z)) (C : Matrix.t) :
  Matrix.cartan_matrix M = Ok C →
  rectangular M = true
  ∧ length M ≤ ncols M
  ∧ Matrix.dim C = length M
  ∧ map length (Matrix.M C) = map length M.
Proof.
  intros HC.
  assert (rectangular M = true) as Hrect.
  { unfold Matrix.cartan_matrix in HC.
    apply bind_Ok in HC as (m & _ & HC). apply bind_Ok in HC as (b & _ & HC).
    apply bind_Ok in HC as (Z0 & HZ0 & _). unfold zeros_like in HZ0.
    by destruct (rectangular M). }
  destruct (cartan_matrix_Ok M C HC) as (m & _ & _ & Hdim & Hs & Hdiag & _).
  split; [done|]. split; [|done].
  destruct (decide (length M = 0)) as [->|Hne]; [lia|].
  specialize (Hdiag (length M - 1) ltac:(lia)).
  unfold cell in Hdiag.
  destruct (Matrix.M C !! (length M - 1)) as [rowC|] eqn:HrowC; [|done].
  simpl in Hdiag. apply lookup_lt_Some in Hdiag.
  assert (map length (Matrix.M C) !! (length M - 1) = Some (length rowC)) as Hl
    by (by rewrite list_lookup_fmap, HrowC).
  rewrite Hs, list_lookup_fmap in Hl.
  destruct (M !! (length M - 1)) as [row|] eqn:Hrow; [|done].
  injection Hl as Hl.
  unfold rectangular in Hrect. rewrite forallb_forall in Hrect.
  assert (In row M) as Hin by (apply list_elem_of_In; by eapply list_elem_of_lookup_2).
  apply Hrect, Nat.eqb_eq in Hin. lia.
Qed.

Lemma cartan_matrix_shape_witness :
  Matrix.cartan_matrix coxeter_wide = Ok cartan_wide
  ∧ rectangular coxeter_wide = true
  ∧ length coxeter_wide ≤ ncols coxeter_wide
  ∧ Matrix.dim cartan_wide = length coxeter_wide
  ∧ map length (Matrix.M cartan_wide) = map length coxeter_wide.
Proof.
  split; [vm_compute; reflexivity|].
  apply (cartan_matrix_shape coxeter_wide cartan_wide). vm_compute; reflexivity.
Defined.

(** ** More on [is_identity] *)

Lemma lower_zero_app (g : grid) (i : nat) (js1 js2 : list nat) :
  (∀ j, j ∈ js1 → cell_is_zero g i j) →
  Matrix.lower_zero g i (js1 ++ js2) = Matrix.lower_zero g i js2.
Proof.
  induction js1 as [|j js1 IH]; intros Hz; [done|].
  destruct (Hz j) as (x & Hx & Hx0); [left|].
  cbn [app Matrix.lower_zero]. rewrite (proj2 (getitem2_Ok g i j x) Hx). simpl.
  rewrite Hx0. apply IH. intros; apply Hz. by right.
Qed.

Lemma lower_zero_passes (g : grid) (i : nat) (js : list nat) :
  (∀ j, j ∈ js → cell_is_zero g i j) → Matrix.lower_zero g i js = Ok true.
Proof.
  intros Hz. rewrite <- (app_nil_r js). by rewrite lower_zero_app.
Qed.

Lemma is_identity_rows_app (g : grid) (rows1 rows2 : list nat) :
  (∀ i, i ∈ rows1 → row_passes g i) →
  Matrix.is_identity_rows g (rows1 ++ rows2) = Matrix.is_identity_rows g rows2.
Proof.
  induction rows1 as [|i rows1 IH]; intros Hp; [done|].
  destruct (Hp i) as [(a & Ha & Hone) Hlow]; [left|].
  cbn [app Matrix.is_identity_rows].
  rewrite (proj2 (getitem2_Ok g i i _) Ha). simpl. rewrite Hone. simpl.
  rewrite lower_zero_passes by (intros j Hj%elem_of_seq; apply Hlow; lia). simpl.
  apply IH. intros; apply Hp. by right.
Qed.

Lemma is_identity_from (A : Matrix.t) (i : nat) :
  i < Matrix.dim A →
  (∀ i', i' < i → row_passes (Matrix.M A) i') →
  Matrix.is_identity A
  = Matrix.is_identity_rows (Matrix.M A) (i :: seq (S i) (Matrix.dim A - S i)).
Proof.
  intros Hi Hp. unfold Matrix.is_identity.
  replace (Matrix.dim A) with (i + S (Matrix.dim A - S i)) at 1 by lia.
  rewrite seq_app. cbn [seq]. rewrite Nat.add_0_l.
  apply is_identity_rows_app. intros i' Hi'%elem_of_seq. apply Hp. lia.
Qed.

Lemma is_identity_diagonal_fails (A : Matrix.t) (i : nat) (a : aint.t) :
  i < Matrix.dim A →
  (∀ i', i' < i → row_passes (Matrix.M A) i') →
  cell (Matrix.M A) i i = Some (PyAint a) →
  poly_eq_int (aint.p a) 1 = false →
  Matrix.is_identity A = Ok false.
Proof.
  intros Hi Hp Ha Hne. rewrite (is_identity_from A i Hi Hp).
  cbn [Matrix.is_identity_rows].
  rewrite (proj2 (getitem2_Ok _ i i _) Ha). simpl. by rewrite Hne.
Qed.

(** X8: [is_identity] stops at the first row that fails: when the rows
    before row [i] pass both tests and row [i] fails one of them, it returns
    [False] whatever the rows after [i] hold, which are not read. *)
Theorem is_identity_first_failure (A : Matrix.t) (i : nat) :
  i < Matrix.dim A →
  (∀ i', i' < i → row_passes (Matrix.M A) i') →
  row_fails (Matrix.M A) i →
  Matrix.is_identity A = Ok false.
Proof.
  intros Hi Hp Hfail.
  destruct Hfail as [(a & Ha & Hne) | [(a & Ha & Hone) (j & Hj & Hz & (x & Hx & Hx0))]].
  - by apply (is_identity_diagonal_fails A i a).
  - rewrite (is_identity_from A i Hi Hp). cbn [Matrix.is_identity_rows].
    rewrite (proj2 (getitem2_Ok _ i i _) Ha). simpl. rewrite Hone. simpl.
    replace i with (j + S (i - S j)) at 2 by lia.
    rewrite seq_app. cbn [seq]. rewrite Nat.add_0_l.
    rewrite lower_zero_app by (intros j' Hj'%elem_of_seq; apply Hz; lia).
    cbn [Matrix.lower_zero].
    rewrite (proj2 (getitem2_Ok _ i j x) Hx). simpl. by rewrite Hx0.
Qed.

Lemma is_identity_first_failure_witness :
  1 < Matrix.dim (Matrix.mk [1; 0; 1]%Z
        [[PyAint (aint.mk [1; 0; 1]%Z [1%Z]); PyInt 7; PyInt 7];
         [PyAint (aint.mk [1; 0; 1]%Z [0; 1]%Z); PyAint (aint.mk [1; 0; 1]%Z [1%Z]); PyInt 7];
         [PyInt 7; PyInt 7; PyInt 7]] 3)
  ∧ Matrix.is_identity (Matrix.mk [1; 0; 1]%Z
        [[PyAint (aint.mk [1; 0; 1]%Z [1%Z]); PyInt 7; PyInt 7];
         [PyAint (aint.mk [1; 0; 1]%Z [0; 1]%Z); PyAint (aint.mk [1; 0; 1]%Z [1%Z]); PyInt 7];
         [PyInt 7; PyInt 7; PyInt 7]] 3) = Ok false.
Proof.
  split; [simpl; lia|].
  apply (is_identity_first_failure _ 1); [simpl; lia | |].
  - intros i' Hi'. assert (i' = 0) as -> by lia. split.
    + eexists. split; reflexivity.
    + intros j Hj. lia.
  - right. split; [|exists 0; split; [lia|split; [intros; lia|]]].
    + eexists. split; reflexivity.
    + eexists. split; reflexivity.
Defined.

(** X9: a diagonal cell that holds a plain integer, such as the zeros that
    [np.zeros_like] leaves, has no polynomial [p]: when the rows before it
    pass, [is_identity] raises [AttributeError]. *)
Theorem is_identity_integer_diagonal (A : Matrix.t) (i : nat) (z : Z) :
  i < Matrix.dim A →
  (∀ i', i' < i → row_passes (Matrix.M A) i') →
  cell (Matrix.M A) i i = Some (PyInt z) →
  Matrix.is_identity A = Raise AttributeError.
Proof.
  intros Hi Hp Hz. rewrite (is_identity_from A i Hi Hp).
  cbn [Matrix.is_identity_rows].
  by rewrite (proj2 (getitem2_Ok _ i i _) Hz).
Qed.

Lemma is_identity_integer_diagonal_witness :
  0 < Matrix.dim (Matrix.__init__ [1; 0; 1]%Z [[PyInt 0; PyInt 0]; [PyInt 0; PyInt 0]])
  ∧ cell [[PyInt 0; PyInt 0]; [PyInt 0; PyInt 0]] 0 0 = Some (PyInt 0)
  ∧ Matrix.is_identity
      (Matrix.__init__ [1; 0; 1]%Z [[PyInt 0; PyInt 0]; [PyInt 0; PyInt 0]])
    = Raise AttributeError.
Proof.
  split; [simpl; lia|]. split; [reflexivity|].
  apply (is_identity_integer_diagonal _ 0 0%Z); [simpl; lia | intros; lia | reflexivity].
Defined.

(** X10: a Cartan matrix is never the identity: [cartan_matrix] puts 2 on
    the diagonal, so [is_identity] returns [False] on what it returns for an
    argument with at least one row. *)
Theorem cartan_matrix_not_identity (M : list (list Z)) (C : Matrix.t) :
  Matrix.cartan_matrix M = Ok C →
  1 ≤ length M →
  Matrix.is_identity C = Ok false.
Proof.
  intros HC Hlen.
  destruct (cartan_matrix_Ok M C HC) as (m & _ & Hb & Hdim & _ & Hdiag & _).
  apply cyclotomic_monic in Hb as [Hb _].
  apply (is_identity_diagonal_fails C 0 (aint.init (Matrix.base C) (inl 2%Z)));
    [lia | intros; lia | apply Hdiag; lia |].
  by rewrite aint_init_int_p.
Qed.

Lemma cartan_matrix_not_identity_witness :
  Matrix.cartan_matrix coxeter_237 = Ok cartan_237
  ∧ 1 ≤ length coxeter_237
  ∧ Matrix.is_identity cartan_237 = Ok false.
Proof.
  split; [vm_compute; reflexivity|]. split; [simpl; lia|].
  apply (cartan_matrix_not_identity coxeter_237); [vm_compute; reflexivity | simpl; lia].
Defined.

(** X11: over a base of degree at least 1, [is_identity] returns [True] on
    the matrix with the lifted 1 on the diagonal and the lifted 0
    elsewhere, of any dimension. *)
Theorem identity_matrix_is_identity (b : poly) (n : nat) :
  2 ≤ length b →
  Matrix.is_identity (identity_matrix b n) = Ok true.
Proof.
  intros Hb. unfold Matrix.is_identity, identity_matrix, Matrix.__init__. simpl.
  rewrite <- (app_nil_r (seq 0 _)). rewrite is_identity_rows_app; [done|].
  unfold identity_grid. rewrite grid_of_length.
  intros i Hi%elem_of_seq. split.
  - eexists. split; [apply identity_grid_cell; lia|].
    rewrite bool_decide_true by done. by rewrite aint_init_int_p.
  - intros j Hj. eexists. split; [apply identity_grid_cell; lia|].
    rewrite bool_decide_false by lia. vm_compute. reflexivity.
Qed.

Lemma identity_matrix_is_identity_witness :
  2 ≤ length [1; 0; 1]%Z
  ∧ Matrix.is_identity (identity_matrix [1; 0; 1]%Z 3) = Ok true.
Proof.
  split; [simpl; lia|]. apply (identity_matrix_is_identity [1; 0; 1]%Z 3). simpl; lia.
Defined.

(** ** More on [reflection_matrix] *)

Lemma matrix_ok_cell (A : Matrix.t) (i j : nat) :
  matrix_ok A = true → i < Matrix.dim A → j < Matrix.dim A →
  cell (Matrix.M A) i j = Some (PyAint (cell_aint (Matrix.M A) i j))
  ∧ reduced (Matrix.base A) (cell_aint (Matrix.M A) i j).
Proof.
  intros (_ & _ & Hcells)%matrix_ok_spec Hi Hj.
  destruct (Hcells i j Hi Hj) as (a & Ha & Hred).
  unfold cell_aint. by rewrite Ha.
Qed.

(** X12: a reflection is an involution, cell by cell: for a square matrix
    [C] of reduced algebraic integers and [0 ≤ k < C.dim], the product of
    [reflection_matrix(C, k)] by itself is the identity matrix over the
    base of [C], above the diagonal as well as on and below it.  Nothing is
    asked of the entries of [C]. *)
Theorem reflection_matrix_squares_to_identity (C : Matrix.t) (k : Z) :
  matrix_ok C = true →
  (0 ≤ k < Z.of_nat (Matrix.dim C))%Z →
  ∃ R, Matrix.reflection_matrix C k = Ok R
    ∧ Matrix.__mul__ R (Matrix.OMatrix R)
      = Ok (Matrix.PMatrix (identity_matrix (Matrix.base C) (Matrix.dim C))).
Proof.
  intros HC Hk. destruct (proj1 (matrix_ok_spec C) HC) as (Hb & Hsq & Hcells).
  rewrite <- (Z2Nat.id k) by lia.
  apply reflection_square_exact; [done..|lia].
Qed.

Lemma reflection_matrix_squares_to_identity_witness :
  matrix_ok cartan_237 = true
  ∧ (0 ≤ 1 < Z.of_nat (Matrix.dim cartan_237))%Z
  ∧ ∃ R, Matrix.reflection_matrix cartan_237 1 = Ok R
      ∧ Matrix.__mul__ R (Matrix.OMatrix R)
        = Ok (Matrix.PMatrix
                (identity_matrix (Matrix.base cartan_237) (Matrix.dim cartan_237))).
Proof.
  split; [vm_compute; reflexivity|]. split; [simpl; lia|].
  apply (reflection_matrix_squares_to_identity cartan_237 1);
    [vm_compute; reflexivity | simpl; lia].
Defined.

(** X13: [reflection_matrix] keeps the invariant of a [Matrix]: for a
    square matrix [C] of reduced algebraic integers and any integer [k] it
    returns a matrix of the same base and dimension, square, whose cells
    are reduced algebraic integers over that base. *)
Theorem reflection_matrix_ok (C : Matrix.t) (k : Z) :
  matrix_ok C = true →
  ∃ R, Matrix.reflection_matrix C k = Ok R
    ∧ matrix_ok R = true
    ∧ Matrix.base R = Matrix.base C
    ∧ Matrix.dim R = Matrix.dim C.
Proof.
  intros HC. destruct (proj1 (matrix_ok_spec C) HC) as (Hb & Hsq & Hcells).
  destruct (reflection_matrix_Ok C k Hsq) as (R & HR & HbR & HdR & HsqR & HcR).
  exists R. split; [done|]. split; [|done].
  apply matrix_ok_spec. rewrite HbR, HdR. split; [done|]. split; [done|].
  intros i j Hi Hj. rewrite HcR by done. unfold reflection_cell.
  repeat case_bool_decide; try (eexists; split; [done|]; by apply reduced_init).
  destruct (Hcells i j Hi Hj) as (a & -> & Ha). simpl.
  eexists. split; [done|]. by apply reduced_neg.
Qed.

Lemma reflection_matrix_ok_witness :
  matrix_ok cartan_237 = true
  ∧ ∃ R, Matrix.reflection_matrix cartan_237 2 = Ok R
      ∧ matrix_ok R = true
      ∧ Matrix.base R = Matrix.base cartan_237
      ∧ Matrix.dim R = Matrix.dim cartan_237.
Proof.
  split; [vm_compute; reflexivity|].
  apply (reflection_matrix_ok cartan_237 2). vm_compute; reflexivity.
Defined.

Lemma one_minus_two (b : poly) :
  2 ≤ length b →
  aint.add (aint.init b (inl 1%Z)) (aint.neg (aint.init b (inl 2%Z)))
  = aint.init b (inl (-1)%Z).
Proof.
  intros Hb. unfold aint.add.
  rewrite (neg_p b) by (by apply reduced_init).
  by rewrite !aint_init_int_p.
Qed.

(** X14: the matrix returned is the one of the docstring,
    [r_k a_j = a_j - C[k][j] a_k], in the basis of the simple roots: for a
    square matrix [C] of reduced algebraic integers with 2 in the diagonal
    cell [(k, k)], as in a Cartan matrix, the cell [(i, j)] of
    [reflection_matrix(C, k)] is [δ(i,j) - C[k][j]·δ(i,k)], the coordinate
    [i] of the image of the simple root [j]. *)
Theorem reflection_matrix_simple_roots (C : Matrix.t) (k : nat) :
  matrix_ok C = true →
  k < Matrix.dim C →
  cell (Matrix.M C) k k = Some (PyAint (aint.init (Matrix.base C) (inl 2%Z))) →
  ∃ R, Matrix.reflection_matrix C (Z.of_nat k) = Ok R
    ∧ ∀ i j, i < Matrix.dim C → j < Matrix.dim C →
        cell (Matrix.M R) i j
        = Some (PyAint (aint.add (kronecker (Matrix.base C) i j)
                   (aint.neg (aint.mul (cell_aint (Matrix.M C) k j)
                                       (kronecker (Matrix.base C) i k))))).
Proof.
  intros HC Hk Hkk. destruct (proj1 (matrix_ok_spec C) HC) as (Hb & Hsq & _).
  destruct (reflection_matrix_Ok C (Z.of_nat k) Hsq) as (R & HR & _ & _ & _ & HcR).
  exists R. split; [done|]. intros i j Hi Hj. rewrite HcR by done.
  destruct (matrix_ok_cell C k j HC Hk Hj) as [Hckj Hred].
  set (b := Matrix.base C) in *. set (c := cell_aint (Matrix.M C) k j) in *.
  assert (aint.neg (aint.init b (inl 0%Z)) = aint.init b (inl 0%Z)) as Hneg0 by done.
  unfold reflection_cell, kronecker. fold b.
  destruct (decide (j = k)) as [->|Hjk].
  - rewrite (bool_decide_true (Z.of_nat k = Z.of_nat k)) by done.
    assert (c = aint.init b (inl 2%Z)) as -> by (unfold c, cell_aint; by rewrite Hkk).
    destruct (decide (i = k)) as [->|Hik].
    + rewrite (bool_decide_true (Z.of_nat k = Z.of_nat k)) by done.
      rewrite !(bool_decide_true (k = k)) by done.
      rewrite mul_one_r by (done || by apply reduced_init).
      by rewrite one_minus_two.
    + rewrite (bool_decide_false (Z.of_nat i = Z.of_nat k)) by lia.
      rewrite !(bool_decide_false (i = k)) by done.
      rewrite mul_zero_r, Hneg0 by done.
      rewrite add_zero_l by (done || by apply reduced_init). done.
  - rewrite (bool_decide_false (Z.of_nat j = Z.of_nat k)) by lia.
    destruct (decide (i = j)) as [->|Hij].
    + rewrite (bool_decide_true (j = j)), (bool_decide_false (j = k)) by done.
      rewrite mul_zero_r, Hneg0 by apply (proj1 Hred).
      rewrite add_zero_r by (done || by apply reduced_init). done.
    + rewrite (bool_decide_false (i = j)) by done.
      destruct (decide (i = k)) as [->|Hik].
      * rewrite (bool_decide_true (Z.of_nat k = Z.of_nat k)) by done.
        rewrite (bool_decide_true (k = k)) by done.
        rewrite Hckj. simpl.
        rewrite mul_one_r by done.
        rewrite add_zero_l by (done || by apply reduced_neg). done.
      * rewrite (bool_decide_false (Z.of_nat i = Z.of_nat k)) by lia.
        rewrite (bool_decide_false (i = k)) by done.
        rewrite mul_zero_r, Hneg0 by apply (proj1 Hred).
        rewrite add_zero_l by (done || by apply reduced_init). done.
Qed.

Lemma reflection_matrix_simple_roots_witness :
  matrix_ok cartan_237 = true
  ∧ 1 < Matrix.dim cartan_237
  ∧ ∃ R, Matrix.reflection_matrix cartan_237 (Z.of_nat 1) = Ok R
      ∧ ∀ i j, i < Matrix.dim cartan_237 → j < Matrix.dim cartan_237 →
          cell (Matrix.M R) i j
          = Some (PyAint (aint.add (kronecker (Matrix.base cartan_237) i j)
                     (aint.neg (aint.mul (cell_aint (Matrix.M cartan_237) 1 j)
                                         (kronecker (Matrix.base cartan_237) i 1))))).
Proof.
  split; [vm_compute; reflexivity|]. split; [simpl; lia|].
  apply (reflection_matrix_simple_roots cartan_237 1);
    [vm_compute; reflexivity | simpl; lia | vm_compute; reflexivity].
Defined.

(** X15: a reflection matrix is never the identity: for a square matrix
    [C] over a base of degree at least 1 and [0 ≤ k < C.dim], [is_identity]
    returns [False] on [reflection_matrix(C, k)], whose diagonal cell
    [(k, k)] is -1. *)
Theorem reflection_matrix_not_identity (C : Matrix.t) (k : nat) :
  square_matrix C →
  2 ≤ length (Matrix.base C) →
  k < Matrix.dim C →
  ∃ R, Matrix.reflection_matrix C (Z.of_nat k) = Ok R
    ∧ Matrix.is_identity R = Ok false.
Proof.
  intros Hsq Hb Hk.
  destruct (reflection_matrix_Ok C (Z.of_nat k) Hsq) as (R & HR & HbR & HdR & _ & HcR).
  exists R. split; [done|].
  apply (is_identity_diagonal_fails R k (aint.init (Matrix.base C) (inl (-1)%Z)));
    [lia| | |].
  - intros i Hi. split.
    + eexists. split.
      * rewrite HcR by lia. unfold reflection_cell.
        rewrite (bool_decide_false (Z.of_nat i = Z.of_nat k)) by lia.
        by rewrite bool_decide_true.
      * by rewrite aint_init_int_p.
    + intros j Hj. eexists. split.
      * rewrite HcR by lia. unfold reflection_cell.
        rewrite (bool_decide_false (Z.of_nat j = Z.of_nat k)) by lia.
        rewrite (bool_decide_false (i = j)) by lia.
        by rewrite (bool_decide_false (Z.of_nat i = Z.of_nat k)) by lia.
      * done.
  - rewrite HcR by lia. unfold reflection_cell.
    by rewrite !(bool_decide_true (Z.of_nat k = Z.of_nat k)).
  - by rewrite aint_init_int_p.
Qed.

Lemma reflection_matrix_not_identity_witness :
  square_matrix cartan_237
  ∧ 2 ≤ length (Matrix.base cartan_237)
  ∧ 2 < Matrix.dim cartan_237
  ∧ ∃ R, Matrix.reflection_matrix cartan_237 (Z.of_nat 2) = Ok R
      ∧ Matrix.is_identity R = Ok false.
Proof.
  split; [vm_compute; reflexivity|]. split; [simpl; lia|]. split; [simpl; lia|].
  apply (reflection_matrix_not_identity cartan_237 2);
    [vm_compute; reflexivity | simpl; lia | simpl; lia].
Defined.

(** X16: [reflection_matrix(C, k)] reads the base, the dimension and the
    shape of [C] and its row [k], nothing else: for two matrices that agree
    on these it returns the same matrix, or raises the same error. *)
Theorem reflection_matrix_row_k (C C' : Matrix.t) (k : Z) :
  Matrix.base C = Matrix.base C' →
  Matrix.dim C = Matrix.dim C' →
  map length (Matrix.M C) = map length (Matrix.M C') →
  Matrix.__getitem__ C k = Matrix.__getitem__ C' k →
  Matrix.reflection_matrix C k = Matrix.reflection_matrix C' k.
Proof.
  intros Hb Hd Hs Hrow. unfold Matrix.reflection_matrix.
  rewrite (zeros_like_shape _ _ Hs), Hb, Hd.
  destruct (zeros_like (Matrix.M C')) as [Z0|e]; [|done]. simpl.
  f_equal. apply for_range_ext. intros j T Hj.
  case_bool_decide; [done|].
  apply for_range_ext. intros i T' Hi. by rewrite Hrow.
Qed.

Lemma reflection_matrix_row_k_witness :
  Matrix.base cartan_222 = Matrix.base (keep_row cartan_222 1)
  ∧ Matrix.dim cartan_222 = Matrix.dim (keep_row cartan_222 1)
  ∧ map length (Matrix.M cartan_222) = map length (Matrix.M (keep_row cartan_222 1))
  ∧ Matrix.__getitem__ cartan_222 1 = Matrix.__getitem__ (keep_row cartan_222 1) 1
  ∧ Matrix.reflection_matrix cartan_222 1
    = Matrix.reflection_matrix (keep_row cartan_222 1) 1.
Proof.
  split; [reflexivity|]. split; [reflexivity|]. split; [vm_compute; reflexivity|].
  split; [vm_compute; reflexivity|].
  apply (reflection_matrix_row_k cartan_222 (keep_row cartan_222 1) 1);
    vm_compute; reflexivity.
Defined.

(** ** More on [__mul__] *)

Lemma identity_matrix_ok (b : poly) (n : nat) :
  2 ≤ length b → matrix_ok (identity_matrix b n) = true.
Proof.
  intros Hb. apply matrix_ok_spec. unfold identity_matrix, Matrix.__init__.
  cbn [Matrix.base Matrix.M Matrix.dim].
  assert (length (identity_grid b n) = n) as -> by apply grid_of_length.
  split; [done|]. split; [apply identity_grid_square|].
  intros i j Hi Hj. eexists. split; [by apply identity_grid_cell|].
  by apply reduced_init.
Qed.

Lemma identity_grid_aint (b : poly) (n i j : nat) :
  i < n → j < n → cell_aint (identity_grid b n) i j = kronecker b i j.
Proof. intros Hi Hj. unfold cell_aint. by rewrite identity_grid_cell. Qed.

Lemma matrix_ok_nonempty (A : Matrix.t) :
  matrix_ok A = true → 1 ≤ Matrix.dim A → Matrix.M A ≠ [].
Proof.
  intros (_ & Hsq & _)%matrix_ok_spec Hn HM.
  apply square_length in Hsq. rewrite HM in Hsq. simpl in Hsq. lia.
Qed.

Lemma matrix_mul_standard (A B : Matrix.t) :
  matrix_ok A = true → matrix_ok B = true →
  Matrix.base A = Matrix.base B → Matrix.dim A = Matrix.dim B →
  1 ≤ Matrix.dim A →
  Matrix.__mul__ A (Matrix.OMatrix B)
  = Ok (Matrix.PMatrix (Matrix.__init__ (Matrix.base A)
          (standard_product (Matrix.dim A) (Matrix.M A) (Matrix.M B)))).
Proof.
  intros HA HB Hb Hd Hn. unfold Matrix.__mul__.
  rewrite bool_decide_true by done.
  pose proof (matrix_ok_nonempty A HA Hn) as HneA.
  destruct (proj1 (matrix_ok_spec A) HA) as (_ & HsqA & _).
  destruct (proj1 (matrix_ok_spec B) HB) as (_ & HsqB & _).
  unfold square_matrix in HsqB. rewrite <- Hd in HsqB.
  rewrite (np_dot_standard (Matrix.dim A)) by (done || by apply matrix_ok_aint_cells).
  by destruct (Matrix.M A).
Qed.

(** X17: the identity matrix is a unit of [*] on both sides: for a square
    matrix [A] of reduced algebraic integers with at least one row, the
    products of [A] by the identity matrix of its base and dimension, on
    the right and on the left, are [Matrix] objects equal to [A]. *)
Theorem identity_matrix_unit (A : Matrix.t) :
  matrix_ok A = true →
  1 ≤ Matrix.dim A →
  Matrix.__mul__ A (Matrix.OMatrix (identity_matrix (Matrix.base A) (Matrix.dim A)))
  = Ok (Matrix.PMatrix A)
  ∧ Matrix.__mul__ (identity_matrix (Matrix.base A) (Matrix.dim A)) (Matrix.OMatrix A)
    = Ok (Matrix.PMatrix A).
Proof.
  intros HA Hn.
  destruct (proj1 (matrix_ok_spec A) HA) as (Hb & Hsq & Hcells).
  pose proof (identity_matrix_ok (Matrix.base A) (Matrix.dim A) Hb) as HI.
  assert (Matrix.dim (identity_matrix (Matrix.base A) (Matrix.dim A)) = Matrix.dim A)
    as HdI by apply grid_of_length.
  assert (∀ g, g = Matrix.M A → Matrix.__init__ (Matrix.base A) g = A) as Hinit.
  { intros g ->. destruct A as [b g n]. unfold Matrix.__init__. simpl in *.
    f_equal. by apply square_length in Hsq. }
  split.
  - rewrite matrix_mul_standard by done. do 2 f_equal. apply Hinit.
    symmetry. apply square_grid_of; [done|]. intros i j Hi Hj.
    destruct (matrix_ok_cell A i j HA Hi Hj) as [-> Hred]. do 2 f_equal. symmetry.
    apply (sum_of_products_single (Matrix.base A) Hb _ _ _ j); [done|done| |].
    + intros l Hl Hlj. simpl. rewrite identity_grid_aint by done.
      unfold kronecker. rewrite bool_decide_false by done.
      apply mul_zero_r. by destruct (matrix_ok_cell A i l HA Hi Hl) as [_ [? _]].
    + simpl. rewrite identity_grid_aint by done.
      unfold kronecker. rewrite bool_decide_true by done. by apply mul_one_r.
  - rewrite matrix_mul_standard by (done || lia). rewrite HdI.
    do 2 f_equal. apply Hinit.
    symmetry. apply square_grid_of; [done|]. intros i j Hi Hj.
    destruct (matrix_ok_cell A i j HA Hi Hj) as [-> Hred]. do 2 f_equal. symmetry.
    apply (sum_of_products_single (Matrix.base A) Hb _ _ _ i); [done|done| |].
    + intros l Hl Hli. simpl. rewrite identity_grid_aint by done.
      unfold kronecker. by rewrite bool_decide_false by done.
    + simpl. rewrite identity_grid_aint by done.
      unfold kronecker. rewrite bool_decide_true by done. by apply mul_one_l.
Qed.

Lemma identity_matrix_unit_witness :
  matrix_ok cartan_237 = true
  ∧ 1 ≤ Matrix.dim cartan_237
  ∧ Matrix.__mul__ cartan_237
      (Matrix.OMatrix (identity_matrix (Matrix.base cartan_237) (Matrix.dim cartan_237)))
    = Ok (Matrix.PMatrix cartan_237)
  ∧ Matrix.__mul__ (identity_matrix (Matrix.base cartan_237) (Matrix.dim cartan_237))
      (Matrix.OMatrix cartan_237)
    = Ok (Matrix.PMatrix cartan_237).
Proof.
  split; [vm_compute; reflexivity|]. split; [simpl; lia|].
  apply (identity_matrix_unit cartan_237); [vm_compute; reflexivity | simpl; lia].
Defined.

Lemma sum_of_products_reduced (b : poly) (f g : nat → aint.t) (n : nat) :
  2 ≤ length b → aint.base (f 0) = b → reduced b (sum_of_products f g n).
Proof.
  intros Hb Hf. unfold sum_of_products.
  assert (reduced b (aint.mul (f 0) (g 0))) as Hacc.
  { unfold aint.mul. rewrite Hf. by apply reduced_init. }
  revert Hacc. generalize (aint.mul (f 0) (g 0)). generalize (seq 1 (n - 1)).
  intros ls. induction ls as [|l ls IH]; intros acc Hacc; [done|].
  simpl. apply IH. unfold aint.add. rewrite (proj1 Hacc). by apply reduced_init.
Qed.

(** X18: [*] keeps the invariant of a [Matrix]: the product of two square
    matrices of reduced algebraic integers over one base, of one dimension
    of at least 1, is a [Matrix] over that base, of that dimension, square,
    whose cells are reduced algebraic integers. *)
Theorem matrix_mul_ok (A B : Matrix.t) :
  matrix_ok A = true → matrix_ok B = true →
  Matrix.base A = Matrix.base B → Matrix.dim A = Matrix.dim B →
  1 ≤ Matrix.dim A →
  ∃ P, Matrix.__mul__ A (Matrix.OMatrix B) = Ok (Matrix.PMatrix P)
    ∧ matrix_ok P = true
    ∧ Matrix.base P = Matrix.base A
    ∧ Matrix.dim P = Matrix.dim A.
Proof.
  intros HA HB Hb Hd Hn. rewrite matrix_mul_standard by done.
  eexists. split; [done|].
  destruct (proj1 (matrix_ok_spec A) HA) as (Hlen & _ & _).
  unfold Matrix.__init__. cbn [Matrix.base Matrix.M Matrix.dim].
  assert (length (standard_product (Matrix.dim A) (Matrix.M A) (Matrix.M B))
          = Matrix.dim A) as -> by apply grid_of_length.
  split; [|done].
  apply matrix_ok_spec. cbn [Matrix.base Matrix.M Matrix.dim].
  split; [done|]. split; [apply grid_of_square|].
  intros i j Hi Hj. eexists. split.
  - by apply (grid_of_cell _ (λ i j, PyAint _)).
  - apply sum_of_products_reduced; [done|].
    apply (matrix_ok_cell A i 0 HA Hi). lia.
Qed.

Lemma matrix_mul_ok_witness :
  matrix_ok cartan_237 = true ∧ matrix_ok cartan_237 = true
  ∧ Matrix.base cartan_237 = Matrix.base cartan_237
  ∧ Matrix.dim cartan_237 = Matrix.dim cartan_237
  ∧ 1 ≤ Matrix.dim cartan_237
  ∧ ∃ P, Matrix.__mul__ cartan_237 (Matrix.OMatrix cartan_237) = Ok (Matrix.PMatrix P)
      ∧ matrix_ok P = true
      ∧ Matrix.base P = Matrix.base cartan_237
      ∧ Matrix.dim P = Matrix.dim cartan_237.
Proof.
  split; [vm_compute; reflexivity|]. split; [vm_compute; reflexivity|].
  split; [reflexivity|]. split; [reflexivity|]. split; [simpl; lia|].
  apply (matrix_mul_ok cartan_237 cartan_237);
    [vm_compute; reflexivity | vm_compute; reflexivity | reflexivity | reflexivity
    | simpl; lia].
Defined.

Lemma as_objects_aints (v : list aint.t) :
  as_objects (map (λ a, Obj (PyAint a)) v) = Some (map PyAint v).
Proof.
  unfold as_objects. induction v as [|a v IH]; [done|].
  cbn [map mapM]. rewrite IH. done.
Qed.

Lemma aints_as_seq (v : list aint.t) (d : aint.t) :
  map PyAint v = map (λ l, PyAint (nth l v d)) (seq 0 (length v)).
Proof.
  induction v as [|a v IH]; [done|].
  simpl. f_equal. rewrite <- seq_shift, map_map. exact IH.
Qed.

(** X19: a matrix times a list of algebraic integers: for a square matrix
    [A] of algebraic integers with at least one row and a list [v] of
    [A.dim] algebraic integers, [A * v] passes the test of [__mul__] and
    returns the one-dimensional array of [np.dot], not a [Matrix]: its
    entry [i] is the sum of the products of row [i] of [A] by [v]. *)
Theorem matrix_mul_vector (A : Matrix.t) (v : list aint.t) :
  square_matrix A →
  aint_cells (Matrix.M A) = true →
  1 ≤ Matrix.dim A →
  length v = Matrix.dim A →
  Matrix.__mul__ A (Matrix.OSeq (map (λ a, Obj (PyAint a)) v))
  = Ok (Matrix.PArray (Array1 (matrix_vector (Matrix.dim A) (Matrix.M A) v))).
Proof.
  intros Hsq Haint Hn Hv. unfold Matrix.__mul__.
  assert (forallb isinstance_aint_item (map (λ a, Obj (PyAint a)) v) = true) as ->.
  { apply forallb_forall. intros x (a & <- & _)%in_map_iff. done. }
  simpl. unfold np_dot_seq. rewrite as_objects_aints.
  unfold np_dot_vec.
  rewrite (square_ncols _ _ Hsq), length_map, bool_decide_true by done.
  rewrite (square_aint_grid_of _ _ Hsq Haint) at 1.
  change (grid_of ?n ?f) with (map (λ i, map (λ l, f i l) (seq 0 n)) (seq 0 n)).
  rewrite map_result_map.
  rewrite (map_result_seq _
    (λ i, PyAint (sum_of_products (λ l, cell_aint (Matrix.M A) i l)
                    (λ l, nth l v (aint.init [] (inl 0%Z))) (Matrix.dim A)))).
  - done.
  - intros i Hi.
    rewrite (aints_as_seq v (aint.init [] (inl 0%Z))), Hv.
    by apply (vdot_aint (λ l, cell_aint (Matrix.M A) i l)).
Qed.

Lemma matrix_mul_vector_witness :
  square_matrix cartan_22
  ∧ aint_cells (Matrix.M cartan_22) = true
  ∧ 1 ≤ Matrix.dim cartan_22
  ∧ length [aint.init (Matrix.base cartan_22) (inl 1%Z);
            aint.init (Matrix.base cartan_22) (inl 0%Z)] = Matrix.dim cartan_22
  ∧ Matrix.__mul__ cartan_22
      (Matrix.OSeq (map (λ a, Obj (PyAint a))
         [aint.init (Matrix.base cartan_22) (inl 1%Z);
          aint.init (Matrix.base cartan_22) (inl 0%Z)]))
    = Ok (Matrix.PArray (Array1
        (matrix_vector (Matrix.dim cartan_22) (Matrix.M cartan_22)
           [aint.init (Matrix.base cartan_22) (inl 1%Z);
            aint.init (Matrix.base cartan_22) (inl 0%Z)]))).
Proof.
  split; [vm_compute; reflexivity|]. split; [vm_compute; reflexivity|].
  split; [simpl; lia|]. split; [reflexivity|].
  apply (matrix_mul_vector cartan_22);
    [vm_compute; reflexivity | vm_compute; reflexivity | simpl; lia | reflexivity].
Defined.

(** ** Instances *)

Lemma cartan_matrix_total_witness :
  coxeter_matrix coxeter_237 = true ∧ coxeter_finite coxeter_237 = true
  ∧ ∃ C, Matrix.cartan_matrix coxeter_237 = Ok C.
Proof.
  split; [vm_compute; reflexivity|]. split; [vm_compute; reflexivity|].
  apply (cartan_matrix_total coxeter_237); vm_compute; reflexivity.
Defined.

Lemma cartan_index_zero_entry_witness :
  Matrix.cartan_index [[1; 3; 2]; [3; 1; 7]; [0; 7; 1]]%Z = Ok 0%Z
  ∧ 0 < 2 ∧ 2 < length [[1; 3; 2]; [3; 1; 7]; [0; 7; 1]]%Z
  ∧ cell [[1; 3; 2]; [3; 1; 7]; [0; 7; 1]]%Z 2 0 = Some 0%Z
  ∧ 0%Z = 0%Z.
Proof.
  split; [vm_compute; reflexivity|]. split; [lia|]. split; [simpl; lia|].
  split; [reflexivity|].
  apply (cartan_index_zero_entry [[1; 3; 2]; [3; 1; 7]; [0; 7; 1]]%Z 0%Z 2 0);
    [vm_compute; reflexivity | lia | simpl; lia | reflexivity].
Defined.

Lemma matrix_sequence_mismatch_witness :
  square_matrix cartan_22
  ∧ no_block [Obj (PyInt 1); Obj (PyInt 2); Obj (PyInt 3)] = true
  ∧ length [Obj (PyInt 1); Obj (PyInt 2); Obj (PyInt 3)] ≠ Matrix.dim cartan_22
  ∧ Matrix.__mul__ cartan_22 (Matrix.OSeq [Obj (PyInt 1); Obj (PyInt 2); Obj (PyInt 3)])
    = Raise (if bool_decide (length [Obj (PyInt 1); Obj (PyInt 2); Obj (PyInt 3)]
                             = Matrix.dim cartan_22)
             then TypeError else ValueError).
Proof.
  split; [vm_compute; reflexivity|]. split; [reflexivity|]. split; [simpl; lia|].
  apply (matrix_sequence_mismatch cartan_22);
    [vm_compute; reflexivity | reflexivity | left; simpl; lia].
Defined.
